(** * A farming-assistant backend: weather cache, collections, chat relay

    Shallow embedding of [server/server.js] (an Express application) and
    proofs of the properties its specification states.

    The server is JavaScript, so the first part of this file models the
    fragment of the language's runtime the handlers rely on: strings,
    Numbers (IEEE doubles, by their exact rational value), the conversions
    [Number(s)], [x.toFixed(f)], [String(x)], truthiness, objects and
    [JSON.stringify].  The handlers follow, written in a small
    state-and-exception monad whose state is the server's mutable store
    together with a trace of the effects performed. *)

From Stdlib Require Import ZArith QArith Qround Qabs Qpower Qcanon Lia Lqa String Ascii List DecimalString DecimalN.
From stdpp Require Import gmap strings list.

Local Open Scope Z_scope.

(* ===================================================================== *)
(** ** The JavaScript runtime fragment *)
(* ===================================================================== *)

Module JS.

(** *** Strings

    A JavaScript string is modelled by its UTF-8 bytes.  Every string the
    handlers take apart (numeric literals, base-36 digits) is ASCII, and
    the white space that [trim] and [Number] strip is recognised in its
    encoded form. *)

Definition chars (s : string) : list ascii := list_ascii_of_string s.
Definition str (l : list ascii) : string := string_of_list_ascii l.

Definition byte (c : ascii) : Z := Z.of_N (N_of_ascii c).

(** WhiteSpace and LineTerminator code points, one to three bytes long. *)
Definition ws1 (a : ascii) : bool :=
  let x := byte a in
  (x =? 9) || (x =? 10) || (x =? 11) || (x =? 12) || (x =? 13) || (x =? 32).

(** U+00A0 *)
Definition ws2 (a b : ascii) : bool :=
  (byte a =? 194) && (byte b =? 160).

(** U+1680, U+2000..U+200A, U+2028, U+2029, U+202F, U+205F, U+3000, U+FEFF *)
Definition ws3 (a b c : ascii) : bool :=
  let '(x, y, z) := (byte a, byte b, byte c) in
  ((x =? 225) && (y =? 154) && (z =? 128))
  || ((x =? 226) && (y =? 128)
      && (((128 <=? z) && (z <=? 138)) || (z =? 168) || (z =? 169) || (z =? 175)))
  || ((x =? 226) && (y =? 129) && (z =? 159))
  || ((x =? 227) && (y =? 128) && (z =? 128))
  || ((x =? 239) && (y =? 187) && (z =? 191)).

(** [trimStart]; with [rev = true] the list is read back to front, so the
    bytes of one code point arrive last byte first. *)
Fixpoint trim_front (rev : bool) (l : list ascii) : list ascii :=
  match l with
  | a :: r1 =>
      if ws1 a then trim_front rev r1
      else match r1 with
           | b :: r2 =>
               if (if rev then ws2 b a else ws2 a b) then trim_front rev r2
               else match r2 with
                    | c :: r3 =>
                        if (if rev then ws3 c b a else ws3 a b c)
                        then trim_front rev r3 else l
                    | [] => l
                    end
           | [] => l
           end
  | [] => []
  end.

Definition trim_chars (l : list ascii) : list ascii :=
  List.rev (trim_front true (List.rev (trim_front false l))).

(** [s.trim()] *)
Definition trim (s : string) : string := str (trim_chars (chars s)).

(** [s.slice(n)] for [0 <= n], on ASCII strings. *)
Definition slice (n : nat) (s : string) : string := str (drop n (chars s)).

(** [xs.join(sep)] on an array of strings. *)
Fixpoint join (sep : string) (xs : list string) : string :=
  match xs with
  | [] => ""
  | [x] => x
  | x :: r => x +:+ sep +:+ join sep r
  end.

(** Decimal digits of a natural number, without sign or leading zeros. *)
Definition dec (n : Z) : string := NilZero.string_of_uint (N.to_uint (Z.to_N n)).

Definition zeros (n : Z) : string := str (replicate (Z.to_nat n) "0"%char).

(** *** Numbers

    A Number is NaN, an infinity or a finite double, the last given by the
    rational it denotes.  The two zeros are one value here: no operation
    the server applies (truthiness, [toFixed], [String]) tells them apart. *)

Inductive num : Type :=
  | NaN
  | Infinity (negative : bool)
  | Finite (q : Q).

Definition pow2 (e : Z) : Q := (2 # 1) ^ e.
Definition pow10 (e : Z) : Q := (10 # 1) ^ e.

Definition Qltb (a b : Q) : bool := negb (Qle_bool b a).

(** The [e] with [2^e <= a < 2^(e+1)], for [0 < a]. *)
Definition floor_log2 (a : Q) : Z :=
  let d := Z.log2 (Qnum a) - Z.log2 (Zpos (Qden a)) in
  if Qle_bool (pow2 d) a then d else d - 1.

(** Nearest integer, ties to the even one. *)
Definition round_ties_even (q : Q) : Z :=
  let f := Qfloor q in
  match (q - inject_Z f ?= 1 # 2)%Q with
  | Lt => f
  | Gt => f + 1
  | Eq => if Z.even f then f else f + 1
  end.

(** The Number value for a real: round to 53 significant bits (fewer below
    [2^-1022]), ties to even; [2^1024] and beyond is an infinity. *)
Definition to_double (q : Q) : num :=
  if Qeq_bool q 0 then Finite 0
  else
    let a := Qabs q in
    let e := Z.max (floor_log2 a - 52) (-1074) in
    let v := (inject_Z (round_ties_even (a / pow2 e)) * pow2 e)%Q in
    if Qle_bool (pow2 1024) v then Infinity (Qltb q 0)
    else Finite (Qred (if Qltb q 0 then - v else v)).

Definition num_eqb (x y : num) : bool :=
  match x, y with
  | NaN, NaN => true
  | Infinity a, Infinity b => Bool.eqb a b
  | Finite p, Finite q => Qeq_bool p q
  | _, _ => false
  end.

(** **** [Number(s)]: StringToNumber *)

Definition radix_digit (c : ascii) : option Z :=
  let n := byte c in
  if (48 <=? n) && (n <=? 57) then Some (n - 48)
  else if (97 <=? n) && (n <=? 122) then Some (n - 87)
  else if (65 <=? n) && (n <=? 90) then Some (n - 55)
  else None.

Definition is_digit (c : ascii) : bool := (48 <=? byte c) && (byte c <=? 57).

(** Value of a digit string in the given radix; [None] on a foreign character. *)
Fixpoint digits_in (radix acc : Z) (l : list ascii) : option Z :=
  match l with
  | [] => Some acc
  | c :: r =>
      match radix_digit c with
      | Some d => if d <? radix then digits_in radix (radix * acc + d) r else None
      | None => None
      end
  end.

(** Longest prefix of decimal digits, and the rest. *)
Fixpoint span_digits (l : list ascii) : list ascii * list ascii :=
  match l with
  | c :: r =>
      if is_digit c then let '(ds, rest) := span_digits r in (c :: ds, rest)
      else ([], l)
  | [] => ([], [])
  end.

Definition digits_value (ds : list ascii) : Z :=
  default 0 (digits_in 10 0 ds).

Definition is_nil {A} (l : list A) : bool :=
  match l with [] => true | _ => false end.

(** ExponentPart, or nothing: the exponent, [None] when malformed. *)
Definition exponent_part (l : list ascii) : option Z :=
  match l with
  | [] => Some 0
  | c :: r =>
      if (byte c =? 101) || (byte c =? 69) then
        let '(neg, r') :=
          match r with
          | s :: t => if byte s =? 43 then (false, t)
                      else if byte s =? 45 then (true, t) else (false, r)
          | [] => (false, r)
          end in
        let '(ds, rest) := span_digits r' in
        if is_nil ds || negb (is_nil rest) then None
        else Some (if neg then - digits_value ds else digits_value ds)
      else None
  end.

(** StrUnsignedDecimalLiteral other than [Infinity]: its mathematical value. *)
Definition unsigned_decimal (l : list ascii) : option Q :=
  let '(ip, r1) := span_digits l in
  let '(fp, r2) :=
    match r1 with
    | c :: r => if byte c =? 46 then span_digits r else ([], r1)
    | [] => ([], r1)
    end in
  if is_nil ip && is_nil fp then None
  else
    match exponent_part r2 with
    | Some e =>
        Some (inject_Z (digits_value (ip ++ fp)) * pow10 (e - Z.of_nat (length fp)))%Q
    | None => None
    end.

(** NonDecimalIntegerLiteral: [0x], [0o] and [0b] literals carry no sign. *)
Definition non_decimal (l : list ascii) : option Z :=
  match l with
  | z :: p :: (_ :: _) as ds =>
      if byte z =? 48 then
        if (byte p =? 120) || (byte p =? 88) then digits_in 16 0 ds
        else if (byte p =? 111) || (byte p =? 79) then digits_in 8 0 ds
        else if (byte p =? 98) || (byte p =? 66) then digits_in 2 0 ds
        else None
      else None
  | _ => None
  end.

Definition chars_eqb (l : list ascii) (s : string) : bool :=
  bool_decide (str l = s).

Definition Number (s : string) : num :=
  let l := trim_chars (chars s) in
  if is_nil l then Finite 0
  else
    match non_decimal l with
    | Some v => to_double (inject_Z v)
    | None =>
        let '(neg, u) :=
          match l with
          | c :: r => if byte c =? 43 then (false, r)
                      else if byte c =? 45 then (true, r) else (false, l)
          | [] => (false, l)
          end in
        if chars_eqb u "Infinity" then Infinity neg
        else
          match unsigned_decimal u with
          | Some q => to_double (if neg then - q else q)
          | None => NaN
          end
    end.

(** **** [String(x)] on Numbers: Number::toString, radix 10 *)

(** The [n] with [10^(n-1) <= a < 10^n], searched upwards from below the
    smallest double. *)
Fixpoint dec_exp_from (fuel : nat) (n : Z) (a : Q) : Z :=
  match fuel with
  | O => n
  | S f => if Qltb a (pow10 n) then n else dec_exp_from f (n + 1) a
  end.

Definition dec_exp (a : Q) : Z := dec_exp_from 700 (-330) a.

Definition Qdist (a b : Q) : Q := Qabs (a - b).

(** The [k]-digit [s] with [s * 10^(n-k)] reading back as [a], if any: one
    of the two integers around [a / 10^(n-k)]; of two that qualify, the
    nearer to [a], and the even one when they are equally near. *)
Definition digits_for (a : Q) (n k : Z) : option Z :=
  let scale := pow10 (n - k) in
  let lo := Qfloor (a / scale) in
  let hi := lo + 1 in
  let ok s :=
    (10 ^ (k - 1) <=? s) && (s <? 10 ^ k)
    && num_eqb (to_double (inject_Z s * scale)) (Finite a) in
  match ok lo, ok hi with
  | true, false => Some lo
  | false, true => Some hi
  | false, false => None
  | true, true =>
      match (Qdist (inject_Z lo * scale) a ?= Qdist (inject_Z hi * scale) a)%Q with
      | Lt => Some lo
      | Gt => Some hi
      | Eq => Some (if Z.even lo then lo else hi)
      end
  end.

Fixpoint shortest_from (fuel : nat) (a : Q) (n k : Z) : option (Z * Z) :=
  match fuel with
  | O => None
  | S f =>
      match digits_for a n k with
      | Some s => Some (k, s)
      | None => shortest_from f a n (k + 1)
      end
  end.

(** The [(n, k, s)] of Number::toString for a double [0 < a]: [k] least
    with [s * 10^(n-k)] reading back as [a].  A power of ten just above
    [a] may read back as [a] too, with one digit.  Seventeen digits always
    identify a double; the last case serves rationals that are not
    doubles. *)
Definition shortest (a : Q) : Z * Z * Z :=
  let n := dec_exp a in
  if num_eqb (to_double (pow10 n)) (Finite a) then (n + 1, 1, 1)
  else
    match shortest_from 17 a n 1 with
    | Some (k, s) => (n, k, s)
    | None => (n, 17, Qfloor (a / pow10 (n - 17)))
    end.

Definition exp_suffix (n : Z) : string :=
  "e" +:+ (if 0 <=? n - 1 then "+" else "-") +:+ dec (Z.abs (n - 1)).

(** Steps 6 to 11 of Number::toString: lay the digits out. *)
Definition layout (n k s : Z) : string :=
  let ds := dec s in
  if (k <=? n) && (n <=? 21) then ds +:+ zeros (n - k)
  else if (0 <? n) && (n <=? 21) then
    str (take (Z.to_nat n) (chars ds)) +:+ "." +:+ str (drop (Z.to_nat n) (chars ds))
  else if (-6 <? n) && (n <=? 0) then "0." +:+ zeros (- n) +:+ ds
  else if k =? 1 then ds +:+ exp_suffix n
  else str (take 1 (chars ds)) +:+ "." +:+ str (drop 1 (chars ds)) +:+ exp_suffix n.

Definition Number_toString (x : num) : string :=
  match x with
  | NaN => "NaN"
  | Infinity neg => if neg then "-Infinity" else "Infinity"
  | Finite q =>
      if Qeq_bool q 0 then "0"
      else
        let '(n, k, s) := shortest (Qabs q) in
        (if Qltb q 0 then "-" else "") +:+ layout n k s
  end.

(** **** [x.toFixed(f)], for [0 <= f <= 100] *)

(** The integer [n] for which [n / 10^f - a] is nearest zero, the larger
    of two: [floor (a * 10^f + 1/2)]. *)
Definition fixed_int (f : Z) (a : Q) : Z := Qfloor (a * pow10 f + (1 # 2)).

(** The digits of [n] with a point before the last [f]. *)
Definition fixed_digits (f : Z) (n : Z) : string :=
  let m := dec n in
  if f =? 0 then m
  else
    let k := Z.of_nat (String.length m) in
    let m := if k <=? f then zeros (f + 1 - k) +:+ m else m in
    let cut := (String.length m - Z.to_nat f)%nat in
    str (take cut (chars m)) +:+ "." +:+ str (drop cut (chars m)).

Definition toFixed (x : num) (f : Z) : string :=
  match x with
  | Finite q =>
      let a := Qabs q in
      (if Qltb q 0 then "-" else "")
      +:+ (if Qle_bool (pow10 21) a then Number_toString (Finite a)
           else fixed_digits f (fixed_int f a))
  | _ => Number_toString x
  end.

(** *** Exceptions

    A computation either completes with a value or throws; of a thrown
    value the handlers only ever read [e?.message ?? String(e)], the
    string kept here. *)

Inductive result (A : Type) : Type :=
  | Ok (a : A)
  | Throw (message : string).
Arguments Ok {A} a.
Arguments Throw {A} message.

(** *** JSON values

    What [JSON.parse] produces: request bodies and upstream payloads.  An
    object is the list of its own properties in enumeration order; a
    missing property ([undefined]) is [None] at the point of use. *)

#[warnings="-register-all"]
Inductive json : Type :=
  | JNull
  | JBool (b : bool)
  | JNum (x : num)
  | JStr (s : string)
  | JArr (elems : list json)
  | JObj (props : list (string * json)).

Abbreviation object := (list (string * json)).

(** ToBoolean *)
Definition truthy (v : json) : bool :=
  match v with
  | JNull => false
  | JBool b => b
  | JNum NaN => false
  | JNum (Infinity _) => true
  | JNum (Finite q) => negb (Qeq_bool q 0)
  | JStr s => negb (bool_decide (s = ""))
  | JArr _ | JObj _ => true
  end.

(** ToBoolean of a possibly missing value. *)
Definition truthy_opt (v : option json) : bool :=
  match v with Some x => truthy x | None => false end.

Fixpoint lookup_prop (k : string) (ps : object) : option json :=
  match ps with
  | [] => None
  | (k', v) :: r => if bool_decide (k' = k) then Some v else lookup_prop k r
  end.

Definition has_prop (k : string) (ps : object) : bool :=
  match lookup_prop k ps with Some _ => true | None => false end.

(** [v.k] for a property name [k] that no built-in prototype defines
    (every name the handlers read): only an object can hold it. *)
Definition get (k : string) (v : json) : option json :=
  match v with
  | JObj ps => lookup_prop k ps
  | _ => None
  end.

(** ToString, as a template literal applies it.  An array joins its
    elements with commas, [null] elements as empty strings; an object from
    JSON answers ["[object Object]"] unless an own (non-callable)
    [toString] property shadows the inherited method, and then no method
    yields a primitive. *)
Fixpoint ToString (v : json) : result string :=
  match v with
  | JNull => Ok "null"
  | JBool b => Ok (if b then "true" else "false")
  | JNum x => Ok (Number_toString x)
  | JStr s => Ok s
  | JArr l =>
      let fix each (l : list json) : result (list string) :=
        match l with
        | [] => Ok []
        | e :: r =>
            match (match e with JNull => Ok "" | _ => ToString e end) with
            | Ok s => match each r with
                      | Ok ss => Ok (s :: ss)
                      | Throw m => Throw m
                      end
            | Throw m => Throw m
            end
        end in
      match each l with
      | Ok ss => Ok (join "," ss)
      | Throw m => Throw m
      end
  | JObj ps =>
      if has_prop "toString" ps
      then Throw "Cannot convert object to primitive value"
      else Ok "[object Object]"
  end.

(** **** [JSON.stringify] *)

Definition hex_digit (n : Z) : ascii :=
  ascii_of_N (Z.to_N (if n <? 10 then 48 + n else 87 + n)).

(** QuoteJSONString, byte by byte: only ASCII characters are escaped. *)
Definition quote_char (c : ascii) : list ascii :=
  let n := byte c in
  if n =? 8 then chars "\b"
  else if n =? 9 then chars "\t"
  else if n =? 10 then chars "\n"
  else if n =? 12 then chars "\f"
  else if n =? 13 then chars "\r"
  else if n =? 34 then [ascii_of_N 92; c]
  else if n =? 92 then [c; c]
  else if n <? 32 then chars "\u00" ++ [hex_digit (n / 16); hex_digit (n mod 16)]
  else [c].

Definition quote (s : string) : string :=
  str ([ascii_of_N 34] ++ flat_map quote_char (chars s) ++ [ascii_of_N 34]).

Fixpoint JSON_stringify (v : json) : string :=
  match v with
  | JNull => "null"
  | JBool b => if b then "true" else "false"
  | JNum (Finite q) => Number_toString (Finite q)
  | JNum _ => "null"
  | JStr s => quote s
  | JArr l => "[" +:+ join "," (List.map JSON_stringify l) +:+ "]"
  | JObj ps =>
      "{" +:+ join "," (List.map (fun kv => quote (fst kv) +:+ ":" +:+ JSON_stringify (snd kv)) ps)
      +:+ "}"
  end.

(** **** Defining properties, and object spread *)

(** An array index: the canonical decimal form of an integer below [2^32 - 1]. *)
Definition array_index (k : string) : option Z :=
  match digits_in 10 0 (chars k) with
  | Some n => if bool_decide (dec n = k) && (n <? 2 ^ 32 - 1) then Some n else None
  | None => None
  end.

Fixpoint replace_prop (k : string) (v : json) (ps : object) : object :=
  match ps with
  | [] => []
  | (k', v') :: r =>
      if bool_decide (k' = k) then (k, v) :: r else (k', v') :: replace_prop k v r
  end.

(** Where a new array-index key goes: before the first key that is not an
    index or is a larger one. *)
Fixpoint insert_index (i : Z) (k : string) (v : json) (ps : object) : object :=
  match ps with
  | [] => [(k, v)]
  | (k', v') :: r =>
      match array_index k' with
      | Some j => if j <? i then (k', v') :: insert_index i k v r
                  else (k, v) :: ps
      | None => (k, v) :: ps
      end
  end.

(** CreateDataProperty on an ordinary object: an existing property keeps
    its place; a new one is enumerated after the others, except that
    array indices come first, in ascending order. *)
Definition obj_set (k : string) (v : json) (ps : object) : object :=
  if has_prop k ps then replace_prop k v ps
  else match array_index k with
       | Some i => insert_index i k v ps
       | None => ps ++ [(k, v)]
       end.

Fixpoint indexed (i : Z) (l : list json) : object :=
  match l with
  | [] => []
  | x :: r => (dec i, x) :: indexed (i + 1) r
  end.

(** *** Splitting *)

(** [s.split(sep)] for a separator of one character: the pieces between
    its occurrences, one more than there are occurrences. *)
Fixpoint split_chars (sep : ascii) (l : list ascii) : list (list ascii) :=
  match l with
  | [] => [[]]
  | c :: r =>
      if bool_decide (c = sep) then [] :: split_chars sep r
      else match split_chars sep r with
           | p :: ps => (c :: p) :: ps
           | [] => [[c]]
           end
  end.

Definition split (sep : ascii) (s : string) : list string :=
  List.map str (split_chars sep (chars s)).

End JS.

(* ===================================================================== *)
(** ** The server *)
(* ===================================================================== *)

Module Server.
Import JS.

(** *** What a handler meets outside the process *)

(** The [Response] of the upstream weather API: [r.status], and what
    [await r.json()] does.  [r.ok] holds for the statuses 200 to 299. *)
Record upstream := { r_status : Z; r_json : result json }.

Definition r_ok (r : upstream) : bool := (200 <=? r_status r) && (r_status r <=? 299).

(** A property of the generative-AI SDK's result, as [typeof] sees it:
    [undefined], a data value, or a function.  A function is given by what
    calling it without arguments does: the SDKs type this accessor
    [text(): string], and it may throw. *)
Inductive member : Type :=
  | Missing
  | Data (v : json)
  | Method (call : result string).

(** The SDK's result, by what the two access paths the relay tries hold:
    [result?.text] and [result?.response?.text] (both missing when the
    result, or its [response], is [undefined] or [null]). *)
Record generated := { text : member; response_text : member }.

Record host := {
  OPENWEATHER_API_KEY : option string;
  GEMINI_API_KEY : option string;
  Date_now : Z;
  (** [fetch(url, ...)] *)
  fetch : string -> result upstream;
  (** [ai.models.generateContent], by model name and the text of the one user part *)
  generateContent : string -> string -> result generated;
  (** [crypto.randomUUID()], when [globalThis.crypto?.randomUUID] exists *)
  randomUUID : option string;
  (** [Math.random().toString(36)]: ["0"] for a draw of zero, otherwise
      ["0."] and base-36 digits *)
  Math_random_toString36 : string
}.

(** A string from the environment or the query, as a condition. *)
Definition nonempty (v : option string) : option string :=
  match v with
  | Some s => if bool_decide (s = "") then None else Some s
  | None => None
  end.

(** *** State *)

Record entry := { ts : Z; data : json }.

(** The effects the properties speak of, in the order performed. *)
Inductive event : Type :=
  | CacheGet (key : string)
  | CacheSet (key : string)
  | Fetch (url : string)
  | Generate (model prompt : string).

Record state := {
  weatherCache : gmap string entry;
  crops : list object;
  todos : list object;
  trace : list event
}.

Definition log (e : event) (s : state) : state :=
  {| weatherCache := weatherCache s; crops := crops s; todos := todos s;
     trace := trace s ++ [e] |}.

Definition with_cache (c : gmap string entry) (s : state) : state :=
  {| weatherCache := c; crops := crops s; todos := todos s; trace := trace s |}.

Definition with_crops (l : list object) (s : state) : state :=
  {| weatherCache := weatherCache s; crops := l; todos := todos s; trace := trace s |}.

Definition with_todos (l : list object) (s : state) : state :=
  {| weatherCache := weatherCache s; crops := crops s; todos := l; trace := trace s |}.

(** *** Handlers as state transformers that may throw *)

Definition M (A : Type) : Type := state -> result A * state.

#[global] Instance M_ret : MRet M := fun A a s => (Ok a, s).

#[global] Instance M_bind : MBind M := fun A B f m s =>
  match m s with
  | (Ok a, s') => f a s'
  | (Throw e, s') => (Throw e, s')
  end.

Definition lift {A} (r : result A) : M A := fun s => (r, s).

(** [try { m } catch (e) { h (e?.message ?? String(e)) }] *)
Definition try_catch {A} (m : M A) (h : string -> M A) : M A := fun s =>
  match m s with
  | (Ok a, s') => (Ok a, s')
  | (Throw e, s') => h e s'
  end.

Definition gets {A} (f : state -> A) : M A := fun s => (Ok (f s), s).
Definition modify (f : state -> state) : M unit := fun s => (Ok tt, f s).

(** *** Responses *)

Record response := {
  status : Z;
  headers : list (string * string);
  body : option json
}.

(** [res.status(code).json(v)] *)
Definition send (code : Z) (v : json) : response :=
  {| status := code; headers := []; body := Some v |}.

(** [res.set(name, value)] before the body is sent *)
Definition set_header (name value : string) (r : response) : response :=
  {| status := status r; headers := headers r ++ [(name, value)]; body := body r |}.

Definition error_body (msg : string) : json := JObj [("error", JStr msg)].

Definition error_details (msg details : string) : json :=
  JObj [("error", JStr msg); ("details", JStr details)].

(** *** Weather: cached proxy *)

Definition WEATHER_TTL_MS : Z := 60000.

Definition weatherCache_get (key : string) : M (option entry) := fun s =>
  (Ok (weatherCache s !! key), log (CacheGet key) s).

Definition weatherCache_set (key : string) (e : entry) : M unit := fun s =>
  (Ok tt, log (CacheSet key) (with_cache (<[key := e]> (weatherCache s)) s)).

Definition await_fetch (h : host) (url : string) : M upstream := fun s =>
  (fetch h url, log (Fetch url) s).

(** [req.query], each parameter given at most once: a string, or absent. *)
Record query := {
  q_lat : option string;
  q_lon : option string;
  q_units : option string;
  q_lang : option string
}.

(** The cache key, line 49: both coordinates to three decimals, then the
    unit system and the language. *)
Definition fingerprint (lat lon units lang : string) : string :=
  toFixed (Number lat) 3 +:+ "," +:+ toFixed (Number lon) 3 +:+ "," +:+ units +:+ "," +:+ lang.

Definition weather_url (lat lon units lang appid : string) : string :=
  "https://api.openweathermap.org/data/2.5/weather?lat=" +:+ lat +:+ "&lon=" +:+ lon
  +:+ "&units=" +:+ units +:+ "&lang=" +:+ lang +:+ "&appid=" +:+ appid.

Definition cache_control : string * string :=
  ("Cache-Control", "public, max-age=30, stale-while-revalidate=120").

(** [cached && now - cached.ts < WEATHER_TTL_MS] *)
Definition fresh (now : Z) (cached : option entry) : option entry :=
  match cached with
  | Some c => if now - ts c <? WEATHER_TTL_MS then Some c else None
  | None => None
  end.

(** [app.get("/api/weather", ...)] *)
Definition get_weather (h : host) (q : query) : M response :=
  try_catch
    (let units := default "metric" (q_units q) in
     let lang := default "en" (q_lang q) in
     match nonempty (q_lat q), nonempty (q_lon q) with
     | Some lat, Some lon =>
         match nonempty (OPENWEATHER_API_KEY h) with
         | None => mret (send 500 (error_body "OPENWEATHER_API_KEY missing in server/.env"))
         | Some appid =>
             let key := fingerprint lat lon units lang in
             let now := Date_now h in
             cached ← weatherCache_get key;
             match fresh now cached with
             | Some c =>
                 mret (set_header cache_control.1 cache_control.2 (send 200 (data c)))
             | None =>
                 r ← await_fetch h (weather_url lat lon units lang appid);
                 payload ← lift (r_json r);
                 if negb (r_ok r) then mret (send (r_status r) payload)
                 else
                   _ ← weatherCache_set key {| ts := now; data := payload |};
                   mret (set_header cache_control.1 cache_control.2 (send 200 payload))
             end
         end
     | _, _ => mret (send 400 (error_body "lat and lon are required"))
     end)
    (fun e => mret (send 500 (error_details "Weather fetch failed" e))).

(** *** Crops and to-dos, in memory *)

(** [req.body] after [express.json()]: nothing, or a parsed object or
    array (in its default strict mode the parser accepts no other JSON
    text). *)
Inductive reqbody : Type :=
  | NoBody
  | ObjBody (ps : object)
  | ArrBody (l : list json).

(** The own enumerable properties of [req.body || {}]; also what
    [...req.body] copies. *)
Definition body_props (b : reqbody) : object :=
  match b with
  | NoBody => []
  | ObjBody ps => ps
  | ArrBody l => indexed 0 l
  end.

(** A destructured property with its default, which replaces [undefined] only. *)
Definition field (k : string) (dflt : json) (b : reqbody) : json :=
  default dflt (lookup_prop k (body_props b)).

(** [{ ...c, ...req.body }]: the properties of [c], then those of the body
    defined over them. *)
Definition merge (c : object) (b : reqbody) : object :=
  fold_left (fun acc kv => obj_set kv.1 kv.2 acc) (body_props b) c.

Definition makeId (h : host) : string :=
  match randomUUID h with
  | Some uuid => uuid
  | None => slice 2 (Math_random_toString36 h)
  end.

(** [c.id === id] *)
Definition has_id (id : string) (c : object) : bool :=
  match lookup_prop "id" c with
  | Some (JStr s) => bool_decide (s = id)
  | _ => false
  end.

(** [xs.map(c => (c.id === id ? { ...c, ...req.body } : c))] *)
Definition update_all (id : string) (b : reqbody) (xs : list object) : list object :=
  List.map (fun c => if has_id id c then merge c b else c) xs.

(** [xs.find(c => c.id === id) || null] *)
Definition found (id : string) (xs : list object) : json :=
  match List.find (has_id id) xs with
  | Some c => JObj c
  | None => JNull
  end.

(** [xs.filter(c => c.id !== id)] *)
Definition remove (id : string) (xs : list object) : list object :=
  List.filter (fun c => negb (has_id id c)) xs.

Definition no_content : response := {| status := 204; headers := []; body := None |}.

Definition get_crops : M response :=
  cs ← gets crops; mret (send 200 (JArr (List.map JObj cs))).

Definition post_crops (h : host) (b : reqbody) : M response :=
  let name := field "name" (JStr "Crop") b in
  let variety := field "variety" (JStr "") b in
  let c := [("id", JStr (makeId h)); ("name", name); ("variety", variety)] in
  _ ← modify (fun s => with_crops (crops s ++ [c]) s);
  mret (send 201 (JObj c)).

Definition put_crops (id : string) (b : reqbody) : M response :=
  _ ← modify (fun s => with_crops (update_all id b (crops s)) s);
  cs ← gets crops;
  mret (send 200 (found id cs)).

Definition delete_crops (id : string) : M response :=
  _ ← modify (fun s => with_crops (remove id (crops s)) s);
  mret no_content.

Definition get_todos : M response :=
  ts ← gets todos; mret (send 200 (JArr (List.map JObj ts))).

Definition post_todos (h : host) (b : reqbody) : M response :=
  let title := field "title" (JStr "Task") b in
  let cropId := field "cropId" JNull b in
  let when := field "when" JNull b in
  let t := [("id", JStr (makeId h)); ("title", title); ("cropId", cropId);
            ("when", when); ("done", JBool false)] in
  _ ← modify (fun s => with_todos (todos s ++ [t]) s);
  mret (send 201 (JObj t)).

Definition put_todos (id : string) (b : reqbody) : M response :=
  _ ← modify (fun s => with_todos (update_all id b (todos s)) s);
  ts ← gets todos;
  mret (send 200 (found id ts)).

Definition delete_todos (id : string) : M response :=
  _ ← modify (fun s => with_todos (remove id (todos s)) s);
  mret no_content.

(** *** Chat relay *)

(** The client made at start-up when [GEMINI_API_KEY] is set; [null] otherwise. *)
Definition ai (h : host) : option (string -> string -> result generated) :=
  match nonempty (GEMINI_API_KEY h) with
  | Some _ => Some (generateContent h)
  | None => None
  end.

Definition preamble : string := "You are a helpful farming assistant.".

(** [crop ? `Crop: ${crop}` : ""] *)
Definition crop_line (crop : json) : result string :=
  if truthy crop then
    match ToString crop with
    | Ok s => Ok ("Crop: " +:+ s)
    | Throw m => Throw m
    end
  else Ok "".

(** [coords?.lat && coords?.lon ? `Coords: ${coords.lat},${coords.lon}` : ""] *)
Definition coords_line (coords : json) : result string :=
  if truthy_opt (get "lat" coords) && truthy_opt (get "lon" coords) then
    match ToString (default JNull (get "lat" coords)) with
    | Ok a =>
        match ToString (default JNull (get "lon" coords)) with
        | Ok b => Ok ("Coords: " +:+ a +:+ "," +:+ b)
        | Throw m => Throw m
        end
    | Throw m => Throw m
    end
  else Ok "".

(** [weather ? `Weather: ${JSON.stringify(weather)}` : ""] *)
Definition weather_line (weather : json) : string :=
  if truthy weather then "Weather: " +:+ JSON_stringify weather else "".

(** [[...].filter(Boolean)] on strings keeps the non-empty ones. *)
Definition filter_Boolean (xs : list string) : list string :=
  List.filter (fun x => negb (bool_decide (x = ""))) xs.

Definition contextLines (crop coords weather : json) : result (list string) :=
  match crop_line crop with
  | Ok c =>
      match coords_line coords with
      | Ok k => Ok (filter_Boolean [preamble; c; k; weather_line weather])
      | Throw m => Throw m
      end
  | Throw m => Throw m
  end.

Definition newline : string := String (ascii_of_N 10) "".

(** [`${contextLines.join(" | ")}\nUser: ${message}`.trim()] *)
Definition prompt_of (lines : list string) (message : json) : result string :=
  match ToString message with
  | Ok m => Ok (trim (join " | " lines +:+ newline +:+ "User: " +:+ m))
  | Throw e => Throw e
  end.

(** The prompt the relay builds from a request body. *)
Definition build_prompt (b : reqbody) : result string :=
  let message := field "message" (JStr "") b in
  let crop := field "crop" (JStr "") b in
  let coords := field "coords" JNull b in
  let weather := field "weather" JNull b in
  match contextLines crop coords weather with
  | Ok lines => prompt_of lines message
  | Throw e => Throw e
  end.

Definition model : string := "gemini-2.0-flash".

Definition await_generateContent
    (client : string -> string -> result generated) (prompt : string) : M generated :=
  fun s => (client model prompt, log (Generate model prompt) s).

(** [typeof result?.text === "string" && result.text]: the string, or a
    falsy value (rendered as the empty string). *)
Definition text_shape (r : generated) : result string :=
  match text r with
  | Data (JStr s) => Ok s
  | _ => Ok ""
  end.

(** [typeof result?.response?.text === "function" && result.response.text()] *)
Definition response_shape (r : generated) : result string :=
  match response_text r with
  | Method call => call
  | _ => Ok ""
  end.

(** Lines 155 to 158: the first shape that gives a non-empty string, or
    the fixed reply. *)
Definition reply_text (r : generated) : result string :=
  match text_shape r with
  | Ok s =>
      if negb (bool_decide (s = "")) then Ok s
      else
        match response_shape r with
        | Ok s' => if negb (bool_decide (s' = "")) then Ok s' else Ok "No reply."
        | Throw e => Throw e
        end
  | Throw e => Throw e
  end.

(** [app.post("/api/gemini-chat", ...)] *)
Definition post_gemini_chat (h : host) (b : reqbody) : M response :=
  try_catch
    (match ai h with
     | None => mret (send 500 (error_body "GEMINI_API_KEY missing in server/.env"))
     | Some client =>
         prompt ← lift (build_prompt b);
         result ← await_generateContent client prompt;
         reply ← lift (reply_text result);
         mret (send 200 (JObj [("reply", JStr reply)]))
     end)
    (fun e => mret (send 500 (error_details "Gemini error" e))).

(** [app.get("/api/health", ...)] *)
Definition get_health : M response := mret (send 200 (JObj [("ok", JBool true)])).

(** *** Start-up configuration *)

(** [(process.env.CORS_ORIGIN || "http://localhost:5173").split(",").map(s => s.trim())] *)
Definition FRONTEND_ORIGIN (CORS_ORIGIN : option string) : list string :=
  List.map trim (split "," (default "http://localhost:5173" (nonempty CORS_ORIGIN))).

End Server.

(* ===================================================================== *)
(** ** Vocabulary of the properties *)
(* ===================================================================== *)

Module Spec.
Import JS Server.

(** *** Weather *)

(** The numeric values of two coordinate strings are finite and less than
    [d] apart. *)
Definition differ_by_less (d : Q) (x y : string) : Prop :=
  match Number x, Number y with
  | Finite a, Finite b => (Qabs (a - b) < d)%Q
  | _, _ => False
  end.

(** [a] lies strictly within 0.0005 of the grid point [n / 1000]. *)
Definition near_grid (n : Z) (a : Q) : Prop :=
  (Qabs (a * 1000 - inject_Z n) < 1 # 2)%Q.

(** [a] and [b] lie around the same grid point, and on the same side of
    zero when that point is zero. *)
Definition same_cell (n : Z) (a b : Q) : Prop :=
  near_grid n a /\ near_grid n b /\ (n = 0 -> (a < 0 <-> b < 0)%Q).

(** Below [10^21], where [toFixed] prints fixed-point digits. *)
Definition fixed_range (a : Q) : Prop := (Qabs a < pow10 21)%Q.

(** The key and the upstream URL of a request that passes both guards of
    the weather handler (coordinates given, API key configured). *)
Definition admitted (h : host) (q : query) : option (string * string) :=
  match nonempty (q_lat q), nonempty (q_lon q), nonempty (OPENWEATHER_API_KEY h) with
  | Some lat, Some lon, Some appid =>
      let units := default "metric" (q_units q) in
      let lang := default "en" (q_lang q) in
      Some (fingerprint lat lon units lang, weather_url lat lon units lang appid)
  | _, _, _ => None
  end.

Definition is_fetch (e : event) : bool :=
  match e with Fetch _ => true | _ => false end.

(** How many upstream weather calls the server has issued so far. *)
Definition upstream_calls (s : state) : nat := length (List.filter is_fetch (trace s)).

(** The success response: the payload under the cache-control hint. *)
Definition cached_reply (payload : json) : response :=
  set_header cache_control.1 cache_control.2 (send 200 payload).

Definition weather_failed (e : string) : response :=
  send 500 (error_details "Weather fetch failed" e).

(** *** Collections *)

(** The identifier source yields an identifier: a UUID in its
    36-character form, or, in the fallback, the base-36 rendering ["0."]
    and digits of a non-zero draw. *)
Definition id_source_ok (h : host) : Prop :=
  match randomUUID h with
  | Some uuid => String.length uuid = 36%nat
  | None => exists d ds, Math_random_toString36 h = "0." +:+ String d ds
  end.

Definition done_true : reqbody := ObjBody [("done", JBool true)].

Definition wheat : reqbody := ObjBody [("name", JStr "Wheat")].

(** *** Chat *)

Definition ten_twenty : json :=
  JObj [("lat", JNum (Finite 10)); ("lon", JNum (Finite 20))].

Definition corn : reqbody :=
  ObjBody [("crop", JStr "Corn"); ("coords", ten_twenty); ("message", JStr "water?")].

(** The strings of [parts] occur in [s] one after the other, without overlap. *)
Fixpoint occurs_in_order (parts : list string) (s : string) : Prop :=
  match parts with
  | [] => True
  | p :: rest =>
      exists before after, s = before +:+ p +:+ after /\ occurs_in_order rest after
  end.

(** *** A sample deployment, for instances of the theorems *)

Definition value_of (x : num) : Q :=
  match x with Finite q => q | _ => 0%Q end.

Definition bengaluru : query :=
  {| q_lat := Some "12.9716"; q_lon := Some "77.5946"; q_units := None; q_lang := None |}.

Definition bengaluru_key : string := "12.972,77.595,metric,en".

Definition bengaluru_url : string :=
  "https://api.openweathermap.org/data/2.5/weather?lat=12.9716&lon=77.5946&units=metric&lang=en&appid=owm".

Definition clear_sky : json :=
  JObj [("name", JStr "Bengaluru"); ("main", JObj [("temp", JNum (Finite (43 # 2)))])].

Definition light_rain : json :=
  JObj [("name", JStr "Bengaluru"); ("main", JObj [("temp", JNum (Finite (39 # 2)))])].

Definition rate_limited : json :=
  JObj [("cod", JNum (Finite 429)); ("message", JStr "Too many requests")].

Definition advice : generated :=
  {| text := Data (JStr "Water early."); response_text := Missing |}.

(** A host whose clock reads [now] and whose weather upstream answers
    with [status] and [payload]. *)
Definition a_host (now status : Z) (payload : json) : host :=
  {| OPENWEATHER_API_KEY := Some "owm";
     GEMINI_API_KEY := Some "gem";
     Date_now := now;
     fetch := fun _ => Ok {| r_status := status; r_json := Ok payload |};
     generateContent := fun _ _ => Ok advice;
     randomUUID := Some "123e4567-e89b-42d3-a456-426614174000";
     Math_random_toString36 := "0.4fzyo82mvyr" |}.

Definition idle : state :=
  {| weatherCache := ∅; crops := []; todos := []; trace := [] |}.

(** The server after one successful weather request at time 1000. *)
Definition warmed : state :=
  {| weatherCache := {[ bengaluru_key := {| ts := 1000; data := clear_sky |} ]};
     crops := []; todos := [];
     trace := [CacheGet bengaluru_key; Fetch bengaluru_url; CacheSet bengaluru_key] |}.

(** Two to-dos, the first one open. *)
Definition irrigate : object :=
  [("id", JStr "t1"); ("title", JStr "Irrigate"); ("cropId", JStr "c1");
   ("when", JStr "2025-06-01T06:30"); ("done", JBool false)].

Definition weed : object :=
  [("id", JStr "t2"); ("title", JStr "Weed"); ("cropId", JNull);
   ("when", JNull); ("done", JBool false)].

Definition two_todos : state :=
  {| weatherCache := ∅; crops := []; todos := [irrigate; weed]; trace := [] |}.

(** *** Vocabulary of the further properties *)

(** The value a request body gives the property [k]: the last one, should
    the list name [k] twice. *)
Definition body_value (k : string) (b : reqbody) : option json :=
  lookup_prop k (rev (body_props b)).

Definition is_generate (e : event) : bool :=
  match e with Generate _ _ => true | _ => false end.

(** How many generative-AI calls the server has issued so far. *)
Definition generate_calls (s : state) : nat := length (List.filter is_generate (trace s)).

Definition comma_free (s : string) : Prop := Forall (fun c => c <> ","%char) (chars s).

(** A run of whole white-space characters. *)
Inductive blank : list ascii -> Prop :=
  | blank_nil : blank []
  | blank_1 a t : ws1 a = true -> blank t -> blank (a :: t)
  | blank_2 a b t : ws2 a b = true -> blank t -> blank (a :: b :: t)
  | blank_3 a b c t : ws3 a b c = true -> blank t -> blank (a :: b :: c :: t).

(** The list opens with a whole white-space character ([rv]: read back
    to front). *)
Definition starts_blank (rv : bool) (l : list ascii) : bool :=
  match l with
  | a :: r1 =>
      ws1 a
      || match r1 with
         | b :: r2 =>
             (if rv then ws2 b a else ws2 a b)
             || match r2 with
                | c :: _ => if rv then ws3 c b a else ws3 a b c
                | [] => false
                end
         | [] => false
         end
  | [] => false
  end.

(** [raw] is [o] between two runs of white space. *)
Definition padded (raw o : string) : Prop :=
  exists p q, blank p /\ blank q /\ chars raw = p ++ chars o ++ q.

(** The digits of a fixed-point rendering, read back as a number. *)
Definition unpoint (s : string) : string :=
  str (List.filter (fun c => negb (bool_decide (c = "."%char))) (chars s)).

Definition read_fixed (s : string) : option Z :=
  match NilEmpty.uint_of_string (unpoint s) with
  | Some d => Some (Z.of_N (N.of_uint d))
  | None => None
  end.

Definition digit_string (s : string) : Prop := Forall (fun c => is_digit c = true) (chars s).

(** *** Further sample data *)

(** A host started without any API key. *)
Definition keyless : host :=
  {| OPENWEATHER_API_KEY := None;
     GEMINI_API_KEY := Some "";
     Date_now := 1000;
     fetch := fun _ => Ok {| r_status := 200; r_json := Ok clear_sky |};
     generateContent := fun _ _ => Ok advice;
     randomUUID := Some "123e4567-e89b-42d3-a456-426614174000";
     Math_random_toString36 := "0.4fzyo82mvyr" |}.

(** A host whose upstream services cannot be reached. *)
Definition offline : host :=
  {| OPENWEATHER_API_KEY := Some "owm";
     GEMINI_API_KEY := Some "gem";
     Date_now := 1000;
     fetch := fun _ => Throw "fetch failed";
     generateContent := fun _ _ => Throw "quota exceeded";
     randomUUID := None;
     Math_random_toString36 := "0.4fzyo82mvyr" |}.

Definition durum : object :=
  [("id", JStr "c1"); ("name", JStr "Wheat"); ("variety", JStr "Durum")].

Definition one_crop : state :=
  {| weatherCache := ∅; crops := [durum]; todos := []; trace := [] |}.

Definition renamed : reqbody := ObjBody [("name", JStr "Winter wheat"); ("area", JStr "2 ha")].

Definition reassigned : reqbody := ObjBody [("id", JStr "c9")].

Definition sow : reqbody := ObjBody [("title", JStr "Sow"); ("cropId", JStr "c1")].

(** A chat message that ends in white space. *)
Definition wordy : reqbody := ObjBody [("message", JStr "when to sow?  ")].

(** A crop that cannot be rendered as text: its [toString] is not callable. *)
Definition unprintable : reqbody :=
  ObjBody [("crop", JObj [("toString", JNum (Finite 1))]); ("message", JStr "hi")].



(** An upstream answer of a gateway in trouble: status 502 and a body
    that is an HTML page, on which [r.json()] throws. *)
Definition html_502 : upstream :=
  {| r_status := 502; r_json := Throw "Unexpected token < in JSON at position 0" |}.

Definition bad_gateway : host :=
  {| OPENWEATHER_API_KEY := Some "owm";
     GEMINI_API_KEY := Some "gem";
     Date_now := 1000;
     fetch := fun _ => Ok html_502;
     generateContent := fun _ _ => Ok advice;
     randomUUID := Some "123e4567-e89b-42d3-a456-426614174000";
     Math_random_toString36 := "0.4fzyo82mvyr" |}.

(** A result without a [text] field whose [response.text()] throws. *)
Definition blocked : generated :=
  {| text := Missing; response_text := Method (Throw "Response was blocked") |}.

Definition blocked_host : host :=
  {| OPENWEATHER_API_KEY := Some "owm";
     GEMINI_API_KEY := Some "gem";
     Date_now := 1000;
     fetch := fun _ => Ok {| r_status := 200; r_json := Ok clear_sky |};
     generateContent := fun _ _ => Ok blocked;
     randomUUID := Some "123e4567-e89b-42d3-a456-426614174000";
     Math_random_toString36 := "0.4fzyo82mvyr" |}.

End Spec.

Import JS Server Spec.

(* ===================================================================== *)
(** ** Rounding to three decimals *)
(* ===================================================================== *)

Section Rounding.

Lemma Qfloor_unique (x : Q) (k : Z) :
  (inject_Z k <= x)%Q -> (x < inject_Z k + 1)%Q -> Qfloor x = k.
Proof.
  intros Hlo Hhi.
  assert (k <= Qfloor x) as H1.
  { rewrite <- (Qfloor_Z k). by apply Qfloor_resp_le. }
  assert (Qfloor x < k + 1) as H2.
  { rewrite Zlt_Qlt, inject_Z_plus. eapply Qle_lt_trans; [apply Qfloor_le | exact Hhi]. }
  lia.
Qed.

Lemma Qltb_true a b : Qltb a b = true <-> (a < b)%Q.
Proof.
  unfold Qltb. rewrite negb_true_iff, <- not_true_iff_false, Qle_bool_iff.
  split; [apply Qnot_le_lt | apply Qlt_not_le].
Qed.

Lemma Qltb_false a b : Qltb a b = false <-> (b <= a)%Q.
Proof. unfold Qltb. by rewrite negb_false_iff, Qle_bool_iff. Qed.

Lemma Qltb_iff_eq a b c d :
  ((a < b)%Q <-> (c < d)%Q) -> Qltb a b = Qltb c d.
Proof.
  intros H. destruct (Qltb c d) eqn:E.
  - apply Qltb_true, H, Qltb_true, E.
  - apply not_true_iff_false. rewrite Qltb_true, H, <- Qltb_true. congruence.
Qed.

Lemma inject_Z_le_m1 n : n < 0 -> (inject_Z n <= -1)%Q.
Proof. intros H. change (inject_Z n <= inject_Z (-1))%Q. rewrite <- Zle_Qle. lia. Qed.

Lemma inject_Z_ge_1 n : 0 < n -> (1 <= inject_Z n)%Q.
Proof. intros H. change (inject_Z 1 <= inject_Z n)%Q. rewrite <- Zle_Qle. lia. Qed.

Lemma near_grid_bounds n a :
  near_grid n a -> (inject_Z n - (1 # 2) < a * 1000 < inject_Z n + (1 # 2))%Q.
Proof.
  unfold near_grid. intros H. apply Qabs_Qlt_condition in H. destruct H. split; lra.
Qed.

(** Around the grid point [n / 1000] the magnitude rounds to [|n|]
    thousandths. *)
Lemma fixed_int_near_grid n a :
  near_grid n a -> fixed_int 3 (Qabs a) = Z.abs n.
Proof.
  intros H. apply near_grid_bounds in H. destruct H as [Hlo Hhi].
  unfold fixed_int. change (pow10 3) with (1000 # 1)%Q.
  destruct (Z.lt_trichotomy n 0) as [Hn | [-> | Hn]].
  - pose proof (inject_Z_le_m1 n Hn) as Hq.
    rewrite Z.abs_neq by lia.
    apply Qfloor_unique; rewrite ?inject_Z_opp, Qabs_neg by lra; lra.
  - change (inject_Z 0) with 0%Q in *.
    apply Qfloor_unique; change (inject_Z (Z.abs 0)) with 0%Q; apply Qabs_case; intros; lra.
  - pose proof (inject_Z_ge_1 n Hn) as Hq.
    rewrite Z.abs_eq by lia.
    apply Qfloor_unique; rewrite Qabs_pos by lra; lra.
Qed.

(** Away from zero the grid point fixes the sign. *)
Lemma near_grid_sign n a :
  near_grid n a -> n <> 0 -> Qltb a 0 = (n <? 0).
Proof.
  intros H Hn. apply near_grid_bounds in H. destruct H as [Hlo Hhi].
  destruct (Z.ltb_spec n 0) as [Hneg | Hpos].
  - pose proof (inject_Z_le_m1 n Hneg). apply Qltb_true. lra.
  - assert (0 < n) as Hpos' by lia.
    pose proof (inject_Z_ge_1 n Hpos'). apply Qltb_false. lra.
Qed.

Lemma toFixed_same_cell n a b :
  same_cell n a b -> fixed_range a -> fixed_range b ->
  toFixed (Finite a) 3 = toFixed (Finite b) 3.
Proof.
  intros (Ha & Hb & Hs) Ra Rb. unfold toFixed.
  apply Qltb_true in Ra, Rb. unfold Qltb in Ra, Rb. apply negb_true_iff in Ra, Rb.
  rewrite Ra, Rb, (fixed_int_near_grid n a), (fixed_int_near_grid n b) by done.
  f_equal. destruct (decide (n = 0)) as [H0 | H0].
  - by rewrite (Qltb_iff_eq a 0 b 0) by auto.
  - by rewrite (near_grid_sign n a), (near_grid_sign n b).
Qed.

End Rounding.

(* ===================================================================== *)
(** ** Doubles beyond fixed-point printing *)
(* ===================================================================== *)

Section Doubles.

Lemma pow2_pos e : (0 < pow2 e)%Q.
Proof. by apply Qpower_0_lt. Qed.

Lemma pow2_plus e1 e2 : (pow2 (e1 + e2) == pow2 e1 * pow2 e2)%Q.
Proof. by apply Qpower_plus. Qed.

Lemma pow2_inject e : 0 <= e -> (pow2 e == inject_Z (2 ^ e))%Q.
Proof. intros H. unfold pow2. by rewrite Zpower_Qpower. Qed.

Lemma pow2_le e1 e2 : e1 <= e2 -> (pow2 e1 <= pow2 e2)%Q.
Proof. intros H. apply Qpower_le_compat_l; [done | by compute]. Qed.

Lemma floor_log2_upper a : (0 < a)%Q -> (a < pow2 (floor_log2 a + 1))%Q.
Proof.
  intros Ha. unfold floor_log2.
  set (d := Z.log2 (Qnum a) - Z.log2 (Z.pos (Qden a))).
  destruct (Qle_bool (pow2 d) a) eqn:E.
  - destruct a as [p q]. cbn [Qnum Qden] in *.
    assert (0 < p) as Hp by (unfold Qlt in Ha; cbn in Ha; lia).
    pose proof (Z.log2_spec p Hp) as [_ Hup].
    pose proof (Z.log2_spec (Z.pos q) (Pos2Z.is_pos q)) as [Hlo _].
    pose proof (Z.log2_nonneg p) as Hlp. pose proof (Z.log2_nonneg (Z.pos q)) as Hlq.
    assert (pow2 (d + 1) * inject_Z (2 ^ Z.log2 (Z.pos q)) == inject_Z (2 ^ Z.succ (Z.log2 p)))%Q as Hx.
    { rewrite <- !pow2_inject by lia. rewrite <- pow2_plus. subst d.
      by replace (Z.log2 p - Z.log2 (Z.pos q) + 1 + Z.log2 (Z.pos q)) with (Z.succ (Z.log2 p)) by lia. }
    assert (0 < inject_Z (2 ^ Z.log2 (Z.pos q)))%Q as Hq0.
    { rewrite <- pow2_inject by lia. apply pow2_pos. }
    apply (Qmult_lt_r _ _ _ Hq0). rewrite Hx.
    apply Qle_lt_trans with (inject_Z p).
    + unfold Qle. cbn [Qnum Qden Qmult inject_Z]. rewrite ?Pos2Z.inj_mul. nia.
    + by rewrite <- Zlt_Qlt.
  - replace (d - 1 + 1) with d by lia. apply Qltb_true. unfold Qltb. by rewrite E.
Qed.

Lemma round_ties_even_bounds x (N : Z) :
  (0 <= x)%Q -> (x < inject_Z N)%Q -> 0 <= round_ties_even x <= N.
Proof.
  intros H0 HN.
  assert (0 <= Qfloor x) as Hf0 by (change 0 with (Qfloor (inject_Z 0)); by apply Qfloor_resp_le).
  assert (Qfloor x < N) as HfN.
  { rewrite Zlt_Qlt. eapply Qle_lt_trans; [apply Qfloor_le | done]. }
  unfold round_ties_even. destruct (_ ?= _)%Q; [destruct (Z.even _)| |]; lia.
Qed.

(** A finite double of magnitude [2^53] or more is an integer. *)
Lemma to_double_integral q a :
  to_double q = Finite a -> (pow2 53 <= Qabs a)%Q -> exists z : Z, (a == inject_Z z)%Q.
Proof.
  unfold to_double. destruct (Qeq_bool q 0) eqn:Hq0; [intros [= <-] _; by exists 0|].
  set (x := Qabs q).
  set (e := Z.max (floor_log2 x - 52) (-1074)).
  set (M := round_ties_even (x / pow2 e)).
  destruct (Qle_bool _ _); [done|]. intros [= <-] Hbig.
  rewrite Qred_correct in Hbig.
  destruct (Z.le_gt_cases 0 e) as [He | He].
  - exists (if Qltb q 0 then - (M * 2 ^ e) else M * 2 ^ e).
    rewrite Qred_correct. destruct (Qltb q 0);
      rewrite ?inject_Z_opp, inject_Z_mult, <- pow2_inject by done; reflexivity.
  - exfalso.
    assert (0 < x)%Q as Hx.
    { apply Qeq_bool_neq in Hq0. subst x.
      destruct (Qlt_le_dec 0 q) as [Hpos | Hnp]; [rewrite Qabs_pos; lra|].
      destruct (Qlt_le_dec q 0) as [Hneg | Hnn]; [rewrite Qabs_neg; lra|].
      destruct Hq0. by apply Qle_antisym. }
    pose proof (pow2_pos e) as He0.
    assert (x < pow2 53 * pow2 e)%Q as Hxe.
    { eapply Qlt_le_trans; [by apply floor_log2_upper|].
      rewrite <- pow2_plus. apply pow2_le. lia. }
    assert (0 <= M <= 2 ^ 53) as HM.
    { apply round_ties_even_bounds.
      - apply Qle_shift_div_l; [done | lra].
      - rewrite <- pow2_inject by done. by apply Qlt_shift_div_r. }
    assert (Qabs (if Qltb q 0 then - (inject_Z M * pow2 e) else inject_Z M * pow2 e)
            <= pow2 53 * (1 # 2))%Q as Hsmall.
    { assert (0 <= inject_Z M * pow2 e <= pow2 53 * (1 # 2))%Q as [Hv0 Hv].
      { split.
        - apply Qmult_le_0_compat; [|lra]. change 0%Q with (inject_Z 0). rewrite <- Zle_Qle. lia.
        - apply Qmult_le_compat_nonneg.
          + split; [change 0%Q with (inject_Z 0)|rewrite pow2_inject by done];
              rewrite <- Zle_Qle; lia.
          + split; [lra|]. change (1 # 2)%Q with (pow2 (-1)). apply pow2_le. lia. }
      destruct (Qltb q 0); rewrite ?Qabs_opp, Qabs_pos; done. }
    pose proof (pow2_pos 53). lra.
Qed.

Lemma to_double_canonical q a : to_double q = Finite a -> Qred a = a.
Proof.
  unfold to_double. destruct (Qeq_bool q 0); [by intros [= <-]|].
  destruct (Qle_bool _ _); [done|]. intros [= <-]. apply Qred_involutive.
Qed.

(** What [Number] returns is zero or the double of some rational. *)
Lemma Number_finite s a :
  Number s = Finite a -> a = 0%Q \/ exists q, to_double q = Finite a.
Proof.
  unfold Number. destruct (is_nil _); [intros [= <-]; by left|].
  destruct (non_decimal _); [by right; eauto|].
  destruct (match trim_chars (chars s) with [] => _ | _ => _ end) as [neg u].
  destruct (chars_eqb u "Infinity"); [done|].
  destruct (unsigned_decimal u); [by right; eauto | done].
Qed.

Lemma Number_canonical s a : Number s = Finite a -> Qred a = a.
Proof.
  intros H. apply Number_finite in H as [-> | [q H]]; [done | by eapply to_double_canonical].
Qed.

Lemma Number_integral s a :
  Number s = Finite a -> (pow2 53 <= Qabs a)%Q -> exists z : Z, (a == inject_Z z)%Q.
Proof.
  intros H Hbig. apply Number_finite in H as [-> | [q H]]; [by exists 0 | by eapply to_double_integral].
Qed.

(** Two doubles around one grid point, one of them beyond the range of
    fixed-point printing, are the same double. *)
Lemma near_grid_large_eq s1 s2 a b n :
  Number s1 = Finite a -> Number s2 = Finite b ->
  near_grid n a -> near_grid n b ->
  ~ fixed_range a -> a = b.
Proof.
  intros Ea Eb Ha Hb Hbig.
  apply near_grid_bounds in Ha, Hb. unfold fixed_range in Hbig. apply Qnot_lt_le in Hbig.
  assert (pow2 53 + 1 <= pow10 21)%Q as H53 by (by vm_compute).
  assert (Qabs a - Qabs b <= Qabs (a - b))%Q as Htri by apply Qabs_triangle_reverse.
  assert (Qabs (a - b) < 1)%Q as Hclose by (apply Qabs_Qlt_condition; split; lra).
  destruct (Number_integral _ _ Ea) as [za Hza]; [lra|].
  destruct (Number_integral _ _ Eb) as [zb Hzb]; [lra|].
  assert (za = zb) as ->.
  { rewrite Hza, Hzb in Hclose. apply Qabs_Qlt_condition in Hclose as [Hlo Hhi].
    unfold Qminus in Hlo, Hhi. rewrite <- inject_Z_opp, <- inject_Z_plus in Hlo, Hhi.
    change (-(1))%Q with (inject_Z (-1)) in Hlo. change 1%Q with (inject_Z 1) in Hhi.
    rewrite <- Zlt_Qlt in Hlo, Hhi. lia. }
  rewrite <- (Number_canonical _ _ Ea), <- (Number_canonical _ _ Eb).
  apply Qred_complete. by rewrite Hza, Hzb.
Qed.

Lemma toFixed_Number_same_cell s1 s2 a b n :
  Number s1 = Finite a -> Number s2 = Finite b -> same_cell n a b ->
  toFixed (Number s1) 3 = toFixed (Number s2) 3.
Proof.
  intros Ea Eb Hab. rewrite Ea, Eb.
  destruct (Qlt_le_dec (Qabs a) (pow10 21)) as [Ra | Ra].
  - destruct (Qlt_le_dec (Qabs b) (pow10 21)) as [Rb | Rb].
    + by apply (toFixed_same_cell n).
    + destruct Hab as (Ha & Hb & _).
      by rewrite (near_grid_large_eq s2 s1 b a n) by (done || by apply Qle_not_lt).
  - destruct Hab as (Ha & Hb & _).
    by rewrite (near_grid_large_eq s1 s2 a b n) by (done || by apply Qle_not_lt).
Qed.

End Doubles.

(** The three-decimal rendering on both sides of a cell boundary, and on
    both sides of zero. *)
Example toFixed_boundary :
  toFixed (Number "0.0004") 3 = "0.000" /\ toFixed (Number "0.0005") 3 = "0.001"
  /\ toFixed (Number "0.0001") 3 = "0.000" /\ toFixed (Number "-0.0001") 3 = "-0.000".
Proof. split; [|split; [|split]]; vm_compute; reflexivity. Qed.

(** Claim C1, as stated, fails: two requests whose latitudes are 0.0002
    apart (0.0004 and 0.0006), with the same longitude, unit system and
    language, get different fingerprints, because the latitudes round to
    0.000 and to 0.001. *)
Lemma close_requests_different_fingerprints :
  differ_by_less (5 # 10000) "0.0004" "0.0006"
  /\ differ_by_less (5 # 10000) "77.5946" "77.5946"
  /\ fingerprint "0.0004" "77.5946" "metric" "en" = "0.000,77.595,metric,en"
  /\ fingerprint "0.0006" "77.5946" "metric" "en" = "0.001,77.595,metric,en"
  /\ fingerprint "0.0004" "77.5946" "metric" "en"
       <> fingerprint "0.0006" "77.5946" "metric" "en".
Proof.
  split; [|split; [|split; [|split]]]; vm_compute; try reflexivity.
  discriminate.
Qed.

(** Claim C1, amended: two weather requests whose latitudes lie strictly
    within 0.0005 degrees of one multiple of 0.001 (on the same side of
    zero when that multiple is zero), whose longitudes do likewise, and
    whose unit system and language are identical, have the same cache
    fingerprint. *)
Theorem fingerprint_same_cell
    (lat1 lat2 lon1 lon2 units lang : string) (a b c d : Q) (n m : Z) :
  Number lat1 = Finite a -> Number lat2 = Finite b ->
  Number lon1 = Finite c -> Number lon2 = Finite d ->
  same_cell n a b -> same_cell m c d ->
  fingerprint lat1 lon1 units lang = fingerprint lat2 lon2 units lang.
Proof.
  intros Ea Eb Ec Ed Hab Hcd. unfold fingerprint.
  by rewrite (toFixed_Number_same_cell lat1 lat2 a b n),
       (toFixed_Number_same_cell lon1 lon2 c d m).
Qed.

Lemma fingerprint_same_cell_witness :
  fingerprint "12.9716" "77.5946" "metric" "en" = fingerprint "12.9719" "77.5948" "metric" "en".
Proof.
  apply (fingerprint_same_cell "12.9716" "12.9719" "77.5946" "77.5948" "metric" "en"
           (value_of (Number "12.9716")) (value_of (Number "12.9719"))
           (value_of (Number "77.5946")) (value_of (Number "77.5948")) 12972 77595).
  - vm_compute; reflexivity.
  - vm_compute; reflexivity.
  - vm_compute; reflexivity.
  - vm_compute; reflexivity.
  - unfold same_cell. split; [|split]; [vm_compute; reflexivity ..| intros H; discriminate H].
  - unfold same_cell. split; [|split]; [vm_compute; reflexivity ..| intros H; discriminate H].
Defined.

(* ===================================================================== *)
(** ** The weather cache *)
(* ===================================================================== *)

Section Weather.

Context (h : host) (q : query) (k url : string).
Hypothesis Hadm : admitted h q = Some (k, url).

(** What the handler does with an admitted request, case by case. *)
Lemma get_weather_admitted (s : state) :
  get_weather h q s =
    match fresh (Date_now h) (weatherCache s !! k) with
    | Some c => (Ok (cached_reply (data c)), log (CacheGet k) s)
    | None =>
        let s1 := log (Fetch url) (log (CacheGet k) s) in
        match fetch h url with
        | Throw e => (Ok (weather_failed e), s1)
        | Ok r =>
            match r_json r with
            | Throw e => (Ok (weather_failed e), s1)
            | Ok payload =>
                if r_ok r
                then (Ok (cached_reply payload),
                      log (CacheSet k)
                        (with_cache
                           (<[k := {| ts := Date_now h; data := payload |}]> (weatherCache s1))
                           s1))
                else (Ok (send (r_status r) payload), s1)
            end
        end
    end.
Proof.
  unfold admitted in Hadm. unfold get_weather, try_catch.
  destruct (nonempty (q_lat q)) as [lat|]; [|done].
  destruct (nonempty (q_lon q)) as [lon|]; [|done].
  destruct (nonempty (OPENWEATHER_API_KEY h)) as [appid|]; [|done].
  injection Hadm as <- <-.
  unfold mbind, M_bind, mret, M_ret, weatherCache_get. cbn [fst snd].
  destruct (fresh _ _) as [c|]; [done|].
  unfold await_fetch, lift, weatherCache_set.
  destruct (fetch h _) as [r|e]; [|done].
  destruct (r_json r) as [payload|e]; [|done].
  by destruct (r_ok r).
Qed.

End Weather.

Lemma fresh_Some now o c :
  fresh now o = Some c <-> o = Some c /\ now - ts c < WEATHER_TTL_MS.
Proof.
  unfold fresh. destruct o as [c'|]; [|by split; [|intros []]].
  destruct (Z.ltb_spec (now - ts c') WEATHER_TTL_MS) as [Hlt | Hge].
  - split; [by intros [= ->] | by intros [[= ->] _]].
  - split; [done | intros [[= ->] Hlt]; lia].
Qed.

Lemma fresh_stale now c :
  WEATHER_TTL_MS <= now - ts c -> fresh now (Some c) = None.
Proof.
  unfold fresh. intros H.
  destruct (Z.ltb_spec (now - ts c) WEATHER_TTL_MS); [lia | done].
Qed.

Lemma upstream_calls_with_cache c s :
  upstream_calls (with_cache c s) = upstream_calls s.
Proof. done. Qed.

Lemma upstream_calls_log e s :
  upstream_calls (log e s) = (upstream_calls s + (if is_fetch e then 1 else 0))%nat.
Proof.
  unfold upstream_calls, log; cbn [trace].
  rewrite List.filter_app, length_app. by destruct e.
Qed.

(** The handler never throws: every path ends in a response. *)
Lemma get_weather_responds h q s : exists r, (get_weather h q s).1 = Ok r.
Proof.
  unfold get_weather, try_catch.
  match goal with |- context [match ?m s with _ => _ end] => destruct (m s) as [[r|e] s'] end;
    cbn; eauto.
Qed.

(** Claim C2.  For every fingerprint [k]: once a weather request for [k]
    has succeeded (status 200), the cache holds an entry for [k] carrying
    the payload just returned; and any request computing the same
    fingerprint that arrives less than 60,000 ms after that entry's
    timestamp is answered with the cached payload under
    [Cache-Control: public, max-age=30, stale-while-revalidate=120],
    reading the cache once and issuing no upstream call. *)
Theorem second_request_served_from_cache
    (h1 : host) (q1 : query) (k url1 : string) (s0 s1 : state) (r1 : response) :
  admitted h1 q1 = Some (k, url1) ->
  get_weather h1 q1 s0 = (Ok r1, s1) ->
  status r1 = 200 ->
  exists e : entry,
    weatherCache s1 !! k = Some e /\ body r1 = Some (data e) /\
    forall (h2 : host) (q2 : query) (url2 : string) (s : state),
      admitted h2 q2 = Some (k, url2) ->
      weatherCache s !! k = Some e ->
      Date_now h2 - ts e < 60000 ->
      get_weather h2 q2 s =
        (Ok {| status := 200;
               headers := [("Cache-Control", "public, max-age=30, stale-while-revalidate=120")];
               body := Some (data e) |},
         log (CacheGet k) s)
      /\ upstream_calls (log (CacheGet k) s) = upstream_calls s.
Proof.
  intros Hadm Hrun Hst. rewrite (get_weather_admitted _ _ _ _ Hadm) in Hrun.
  assert (exists e, weatherCache s1 !! k = Some e /\ body r1 = Some (data e)) as (e & He & Hb).
  { destruct (fresh _ _) as [c|] eqn:Hf.
    - apply fresh_Some in Hf as [Hc _]. injection Hrun as <- <-. by exists c.
    - cbn zeta in Hrun. destruct (fetch h1 url1) as [r|m]; [|by injection Hrun as <- <-].
      destruct (r_json r) as [payload|m]; [|by injection Hrun as <- <-].
      destruct (r_ok r) eqn:Hok; injection Hrun as <- <-.
      + eexists. split; [cbn; apply lookup_insert_eq | done].
      + unfold r_ok in Hok. cbn in Hst. by rewrite Hst in Hok. }
  exists e. split; [done|]. split; [done|].
  intros h2 q2 url2 s Hadm2 Hs Hage.
  rewrite (get_weather_admitted _ _ _ _ Hadm2).
  assert (fresh (Date_now h2) (weatherCache s !! k) = Some e) as -> by by apply fresh_Some.
  split; [done|]. rewrite upstream_calls_log. cbn. lia.
Qed.

Lemma second_request_witness :
  exists e : entry,
    weatherCache warmed !! bengaluru_key = Some e /\ body (cached_reply clear_sky) = Some (data e) /\
    forall (h2 : host) (q2 : query) (url2 : string) (s : state),
      admitted h2 q2 = Some (bengaluru_key, url2) ->
      weatherCache s !! bengaluru_key = Some e ->
      Date_now h2 - ts e < 60000 ->
      get_weather h2 q2 s =
        (Ok {| status := 200;
               headers := [("Cache-Control", "public, max-age=30, stale-while-revalidate=120")];
               body := Some (data e) |},
         log (CacheGet bengaluru_key) s)
      /\ upstream_calls (log (CacheGet bengaluru_key) s) = upstream_calls s.
Proof.
  apply (second_request_served_from_cache (a_host 1000 200 clear_sky) bengaluru
           bengaluru_key bengaluru_url idle warmed (cached_reply clear_sky)).
  - vm_compute; reflexivity.
  - vm_compute; reflexivity.
  - reflexivity.
Defined.

(** Claim C3.  For every fingerprint [k] with a cached entry aged 60,000 ms
    or more, a weather request for [k] issues exactly one upstream call
    (whatever its outcome); and when the upstream answers with a success
    status and a parsed payload, the request returns that payload and the
    entry for [k] is replaced by the new payload with the request's own
    timestamp, the cache keeping one entry per fingerprint (its size does
    not change). *)
Theorem stale_entry_refreshed
    (h : host) (q : query) (k url : string) (s : state) (e : entry) :
  admitted h q = Some (k, url) ->
  weatherCache s !! k = Some e ->
  60000 <= Date_now h - ts e ->
  upstream_calls (get_weather h q s).2 = S (upstream_calls s)
  /\ forall (r : upstream) (payload : json),
       fetch h url = Ok r -> r_ok r = true -> r_json r = Ok payload ->
       let renewed := {| ts := Date_now h; data := payload |} in
       (get_weather h q s).1 = Ok (cached_reply payload)
       /\ weatherCache (get_weather h q s).2 = <[k := renewed]> (weatherCache s)
       /\ weatherCache (get_weather h q s).2 !! k = Some renewed
       /\ size (weatherCache (get_weather h q s).2) = size (weatherCache s).
Proof.
  intros Hadm Hs Hage. rewrite (get_weather_admitted _ _ _ _ Hadm), Hs, fresh_stale by done.
  cbn zeta. split.
  - destruct (fetch h url) as [r|m]; [destruct (r_json r) as [payload|m]; [destruct (r_ok r)|]|];
      cbn [snd]; rewrite ?upstream_calls_log, ?upstream_calls_with_cache, ?upstream_calls_log;
      cbn; lia.
  - intros r payload -> Hok ->. rewrite Hok. cbn.
    split; [done|]. split; [done|]. split; [apply lookup_insert_eq|].
    by apply map_size_insert_Some.
Qed.

Lemma stale_entry_witness :
  upstream_calls (get_weather (a_host 61000 200 light_rain) bengaluru warmed).2
    = S (upstream_calls warmed)
  /\ forall (r : upstream) (payload : json),
       fetch (a_host 61000 200 light_rain) bengaluru_url = Ok r ->
       r_ok r = true -> r_json r = Ok payload ->
       let renewed := {| ts := 61000; data := payload |} in
       (get_weather (a_host 61000 200 light_rain) bengaluru warmed).1
         = Ok (cached_reply payload)
       /\ weatherCache (get_weather (a_host 61000 200 light_rain) bengaluru warmed).2
            = <[bengaluru_key := renewed]> (weatherCache warmed)
       /\ weatherCache (get_weather (a_host 61000 200 light_rain) bengaluru warmed).2
            !! bengaluru_key = Some renewed
       /\ size (weatherCache (get_weather (a_host 61000 200 light_rain) bengaluru warmed).2)
            = size (weatherCache warmed).
Proof.
  apply (stale_entry_refreshed (a_host 61000 200 light_rain) bengaluru
           bengaluru_key bengaluru_url warmed {| ts := 1000; data := clear_sky |}).
  - vm_compute; reflexivity.
  - vm_compute; reflexivity.
  - vm_compute; discriminate.
Defined.

(** The claim as first stated fails: an upstream answer with status 502
    whose body is not JSON is not forwarded; the handler answers 500
    [Weather fetch failed], because the body is parsed before the status
    is looked at. *)
Lemma unparsable_failure_not_forwarded :
  fetch bad_gateway bengaluru_url = Ok html_502
  /\ r_ok html_502 = false
  /\ r_status html_502 = 502
  /\ (get_weather bad_gateway bengaluru idle).1 =
       Ok {| status := 500; headers := [];
             body := Some (JObj [("error", JStr "Weather fetch failed");
                                 ("details", JStr "Unexpected token < in JSON at position 0")]) |}.
Proof. split; [|split; [|split]]; vm_compute; reflexivity. Qed.

(** Claim C4, amended.  For every weather request that reaches the
    upstream (no fresh entry for its fingerprint) and whose upstream
    response has a non-success status: when the body of that response
    parses as JSON, the proxy answers with the upstream's status code and
    the parsed body, unchanged; when it does not parse, the proxy answers
    500 [Weather fetch failed] with the parser's message.  Either way
    exactly one upstream call is made (no retry) and the cache is left as
    it was. *)
Theorem upstream_failure_forwarded
    (h : host) (q : query) (k url : string) (s : state) (r : upstream) :
  admitted h q = Some (k, url) ->
  fresh (Date_now h) (weatherCache s !! k) = None ->
  fetch h url = Ok r -> r_ok r = false ->
  (forall payload, r_json r = Ok payload ->
     (get_weather h q s).1
     = Ok {| status := r_status r; headers := []; body := Some payload |})
  /\ (forall e, r_json r = Throw e ->
        (get_weather h q s).1
        = Ok {| status := 500; headers := [];
                body := Some (JObj [("error", JStr "Weather fetch failed");
                                    ("details", JStr e)]) |})
  /\ upstream_calls (get_weather h q s).2 = S (upstream_calls s)
  /\ weatherCache (get_weather h q s).2 = weatherCache s.
Proof.
  intros Hadm Hf Hr Hok. rewrite (get_weather_admitted _ _ _ _ Hadm), Hf, Hr.
  cbn zeta.
  assert (upstream_calls (log (Fetch url) (log (CacheGet k) s)) = S (upstream_calls s)) as Hn.
  { rewrite !upstream_calls_log. cbn. lia. }
  destruct (r_json r) as [payload|e]; rewrite ?Hok; cbn [fst snd].
  - split; [by intros ? [= <-]|]. split; [done|]. by split.
  - split; [done|]. split; [by intros ? [= <-]|]. by split.
Qed.

Lemma upstream_failure_witness :
  (forall payload,
     r_json {| r_status := 429; r_json := Ok rate_limited |} = Ok payload ->
     (get_weather (a_host 1000 429 rate_limited) bengaluru idle).1
     = Ok {| status := r_status {| r_status := 429; r_json := Ok rate_limited |};
             headers := []; body := Some payload |})
  /\ (forall e,
        r_json {| r_status := 429; r_json := Ok rate_limited |} = Throw e ->
        (get_weather (a_host 1000 429 rate_limited) bengaluru idle).1
        = Ok {| status := 500; headers := [];
                body := Some (JObj [("error", JStr "Weather fetch failed");
                                    ("details", JStr e)]) |})
  /\ upstream_calls (get_weather (a_host 1000 429 rate_limited) bengaluru idle).2
       = S (upstream_calls idle)
  /\ weatherCache (get_weather (a_host 1000 429 rate_limited) bengaluru idle).2
       = weatherCache idle.
Proof.
  apply (upstream_failure_forwarded (a_host 1000 429 rate_limited) bengaluru
           bengaluru_key bengaluru_url idle
           {| r_status := 429; r_json := Ok rate_limited |}).
  - vm_compute; reflexivity.
  - vm_compute; reflexivity.
  - reflexivity.
  - reflexivity.
Defined.

(** Claim C5.  For every weather request without a [lat] or without a
    [lon] query parameter, the handler answers 400 with a JSON body that
    has an [error] field, and the server state is untouched: no cache
    read or write and no upstream call is recorded. *)
Theorem missing_coordinate_rejected (h : host) (q : query) (s : state) :
  q_lat q = None \/ q_lon q = None ->
  get_weather h q s =
    (Ok {| status := 400; headers := [];
           body := Some (JObj [("error", JStr "lat and lon are required")]) |}, s).
Proof.
  intros H. unfold get_weather, try_catch.
  destruct H as [-> | ->]; cbn; [done|]. by destruct (nonempty (q_lat q)).
Qed.

Lemma missing_coordinate_witness :
  get_weather (a_host 1000 200 clear_sky)
    {| q_lat := Some "12.9716"; q_lon := None; q_units := None; q_lang := None |} warmed =
    (Ok {| status := 400; headers := [];
           body := Some (JObj [("error", JStr "lat and lon are required")]) |}, warmed).
Proof.
  apply (missing_coordinate_rejected (a_host 1000 200 clear_sky)
           {| q_lat := Some "12.9716"; q_lon := None; q_units := None; q_lang := None |} warmed).
  right. reflexivity.
Defined.

(* ===================================================================== *)
(** ** Crops and to-dos *)
(* ===================================================================== *)

Section Objects.

Lemma lookup_replace_prop k v ps k' :
  lookup_prop k' (replace_prop k v ps) =
    if bool_decide (k' = k) && has_prop k ps then Some v else lookup_prop k' ps.
Proof.
  unfold has_prop. induction ps as [|[k0 v0] ps IH]; cbn.
  - by rewrite andb_false_r.
  - destruct (decide (k0 = k)) as [-> | Hne].
    + rewrite (bool_decide_eq_true_2 (k = k)) by done. cbn.
      rewrite (bool_decide_ext (k = k') (k' = k)) by done. by case_bool_decide.
    + rewrite (bool_decide_eq_false_2 (k0 = k)) by done. cbn.
      destruct (decide (k0 = k')) as [<- | Hne'].
      * by rewrite (bool_decide_eq_true_2 (k0 = k0)), (bool_decide_eq_false_2 (k0 = k)).
      * rewrite (bool_decide_eq_false_2 (k0 = k')) by done. exact IH.
Qed.

Lemma lookup_prop_app k ps qs :
  lookup_prop k (ps ++ qs) =
    match lookup_prop k ps with Some v => Some v | None => lookup_prop k qs end.
Proof. induction ps as [|[k0 v0] ps IH]; cbn; [done|]. by case_bool_decide. Qed.

Lemma lookup_insert_index i k v ps k' :
  lookup_prop k ps = None ->
  lookup_prop k' (insert_index i k v ps) =
    if bool_decide (k' = k) then Some v else lookup_prop k' ps.
Proof.
  assert (forall qs, lookup_prop k' ((k, v) :: qs) =
            if bool_decide (k' = k) then Some v else lookup_prop k' qs) as Hhead.
  { intros qs. cbn. by rewrite (bool_decide_ext (k = k') (k' = k)). }
  induction ps as [|[k0 v0] ps IH]; intros Hk.
  - apply Hhead.
  - cbn [insert_index]. cbn in Hk. case_bool_decide as Hk0; [done|].
    destruct (array_index k0) as [j|]; [destruct (j <? i)|]; try apply Hhead.
    cbn. rewrite IH by done. repeat case_bool_decide; congruence.
Qed.

(** Defining a property changes what that name reads, and nothing else. *)
Lemma lookup_obj_set k v ps k' :
  lookup_prop k' (obj_set k v ps) =
    if bool_decide (k' = k) then Some v else lookup_prop k' ps.
Proof.
  unfold obj_set. destruct (has_prop k ps) eqn:Hhas.
  - rewrite lookup_replace_prop, Hhas. by rewrite andb_true_r.
  - assert (lookup_prop k ps = None) as Hk.
    { unfold has_prop in Hhas. by destruct (lookup_prop k ps). }
    destruct (array_index k) as [i|].
    + by apply lookup_insert_index.
    + rewrite lookup_prop_app. cbn. rewrite (bool_decide_ext (k = k') (k' = k)) by done.
      case_bool_decide as Hk'; [by subst; rewrite Hk | by destruct (lookup_prop k' ps)].
Qed.

Lemma has_id_obj_set i k v c : k <> "id" -> has_id i (obj_set k v c) = has_id i c.
Proof.
  intros Hk. unfold has_id. rewrite lookup_obj_set.
  by rewrite bool_decide_eq_false_2 by done.
Qed.

End Objects.

Section Collections.

Lemma find_update_all i b xs :
  (forall c, has_id i c = true -> has_id i (merge c b) = true) ->
  List.find (has_id i) (update_all i b xs) = (fun c => merge c b) <$> List.find (has_id i) xs.
Proof.
  intros Hkeep. induction xs as [|c xs IH]; [done|]. cbn.
  destruct (has_id i c) eqn:Hc.
  - by rewrite Hkeep.
  - by rewrite Hc.
Qed.




Lemma makeId_nonempty h : id_source_ok h -> makeId h <> "".
Proof.
  unfold id_source_ok, makeId. destruct (randomUUID h) as [uuid|].
  - by intros Hlen ->.
  - intros (d & ds & ->). unfold slice. by cbn.
Qed.


End Collections.


Example irrigate_marked_done :
  put_todos "t1" done_true two_todos =
    (Ok {| status := 200; headers := [];
           body := Some (JObj [("id", JStr "t1"); ("title", JStr "Irrigate");
                               ("cropId", JStr "c1"); ("when", JStr "2025-06-01T06:30");
                               ("done", JBool true)]) |},
     {| weatherCache := ∅; crops := [];
        todos := [[("id", JStr "t1"); ("title", JStr "Irrigate"); ("cropId", JStr "c1");
                   ("when", JStr "2025-06-01T06:30"); ("done", JBool true)]; weed];
        trace := [] |})
  /\ put_todos "t9" done_true two_todos =
       (Ok {| status := 200; headers := []; body := Some JNull |}, two_todos).
Proof. split; vm_compute; reflexivity. Qed.



Example wheat_created :
  let c := [("id", JStr "123e4567-e89b-42d3-a456-426614174000");
            ("name", JStr "Wheat"); ("variety", JStr "")] in
  post_crops (a_host 1000 200 clear_sky) wheat warmed =
    (Ok {| status := 201; headers := []; body := Some (JObj c) |},
     {| weatherCache := weatherCache warmed; crops := [c]; todos := [];
        trace := trace warmed |}).
Proof. reflexivity. Qed.

(** The one draw [id_source_ok] leaves out: without [crypto.randomUUID],
    a [Math.random()] of zero prints as ["0"], of which [slice(2)] keeps
    nothing. *)
Lemma makeId_zero_draw h :
  randomUUID h = None -> Math_random_toString36 h = "0" -> makeId h = "".
Proof. unfold makeId. by intros -> ->. Qed.

(* ===================================================================== *)
(** ** The chat relay *)
(* ===================================================================== *)

Section Chat.

(** With a client configured, the relay sends the prompt built from the
    body, once, and answers with the extracted reply. *)
Lemma post_gemini_chat_relays h b s prompt r reply :
  ai h = Some (generateContent h) ->
  build_prompt b = Ok prompt ->
  generateContent h model prompt = Ok r ->
  reply_text r = Ok reply ->
  post_gemini_chat h b s =
    (Ok (send 200 (JObj [("reply", JStr reply)])), log (Generate model prompt) s).
Proof.
  intros Hai Hp Hr Ht. unfold post_gemini_chat, try_catch. rewrite Hai.
  unfold mbind, M_bind, lift, await_generateContent, mret, M_ret.
  by rewrite Hp, Hr, Ht.
Qed.

(** An accessor that throws ends the request in the handler's [catch]. *)
Lemma post_gemini_chat_accessor_throws h b s prompt r e :
  ai h = Some (generateContent h) ->
  build_prompt b = Ok prompt ->
  generateContent h model prompt = Ok r ->
  reply_text r = Throw e ->
  post_gemini_chat h b s =
    (Ok (send 500 (error_details "Gemini error" e)), log (Generate model prompt) s).
Proof.
  intros Hai Hp Hr Ht. unfold post_gemini_chat, try_catch. rewrite Hai.
  unfold mbind, M_bind, lift, await_generateContent, mret, M_ret.
  by rewrite Hp, Hr, Ht.
Qed.

(** Whatever the upstream then does, the prompt built from the body is
    what the relay sends, to the fixed model, once. *)
Lemma post_gemini_chat_sends h b s prompt :
  ai h = Some (generateContent h) ->
  build_prompt b = Ok prompt ->
  trace (post_gemini_chat h b s).2 = trace s ++ [Generate model prompt].
Proof.
  intros Hai Hp. unfold post_gemini_chat, try_catch. rewrite Hai.
  unfold mbind, M_bind, lift, await_generateContent, mret, M_ret. rewrite Hp.
  destruct (generateContent h model prompt) as [r|e]; [|done].
  by destruct (reply_text r).
Qed.

End Chat.

(** Claim C8.  For the input [crop: "Corn"], [coords: {lat: 10, lon: 20}],
    [message: "water?"], the context lines are the preamble, ["Crop: Corn"]
    and ["Coords: 10,20"] (no weather line, none being given); the prompt
    is these joined by [" | "], a line break, and ["User: water?"]; so it
    contains ["Crop: Corn"], then ["Coords: 10,20"], then the message text,
    in that order. *)
Theorem corn_prompt :
  contextLines (JStr "Corn") ten_twenty JNull
    = Ok ["You are a helpful farming assistant."; "Crop: Corn"; "Coords: 10,20"]
  /\ build_prompt corn
    = Ok ("You are a helpful farming assistant." +:+ " | " +:+ "Crop: Corn" +:+ " | "
          +:+ "Coords: 10,20" +:+ newline +:+ "User: " +:+ "water?")
  /\ forall p, build_prompt corn = Ok p ->
       occurs_in_order ["Crop: Corn"; "Coords: 10,20"; "water?"] p.
Proof.
  assert (build_prompt corn
    = Ok ("You are a helpful farming assistant." +:+ " | " +:+ "Crop: Corn" +:+ " | "
          +:+ "Coords: 10,20" +:+ newline +:+ "User: " +:+ "water?")) as Hp
    by (vm_compute; reflexivity).
  split; [vm_compute; reflexivity|]. split; [exact Hp|].
  intros p. rewrite Hp. intros [= <-].
  exists ("You are a helpful farming assistant." +:+ " | "),
    (" | " +:+ "Coords: 10,20" +:+ newline +:+ "User: " +:+ "water?").
  split; [reflexivity|].
  exists " | ", (newline +:+ "User: " +:+ "water?"). split; [reflexivity|].
  exists (newline +:+ "User: "), "". split; [reflexivity | exact I].
Qed.

(** The claim as first stated fails: for a result without a [text] field
    whose [response.text()] throws, no shape yields a text, yet the result
    is not ["No reply."]: the extraction throws, and the relay answers 500
    [Gemini error]. *)
Lemma throwing_accessor_no_fallback :
  text_shape blocked = Ok ""
  /\ response_shape blocked = Throw "Response was blocked"
  /\ reply_text blocked = Throw "Response was blocked"
  /\ (post_gemini_chat blocked_host corn idle).1 =
       Ok {| status := 500; headers := [];
             body := Some (JObj [("error", JStr "Gemini error");
                                 ("details", JStr "Response was blocked")]) |}.
Proof. split; [|split; [|split]]; vm_compute; reflexivity. Qed.

(** Claim C9, amended.  For every upstream result, the reply is taken
    from the accessor shapes in a fixed order: a [text] field that is a
    non-empty string is the reply, whatever else the result holds; failing
    that, the non-empty string a callable [response.text] returns is the
    reply; when [response.text] is not callable, or returns the empty
    string, the reply is exactly ["No reply."]; and when the call of
    [response.text] throws, there is no reply: the extraction throws.  The
    relay answers 200 with the reply in the first three cases and 500
    [Gemini error] with the thrown message in the last. *)
Theorem reply_text_order (r : generated) :
  (forall s, text r = Data (JStr s) -> s <> "" -> reply_text r = Ok s)
  /\ ((forall s, text r = Data (JStr s) -> s = "") ->
      forall s, response_text r = Method (Ok s) -> s <> "" -> reply_text r = Ok s)
  /\ ((forall s, text r = Data (JStr s) -> s = "") ->
      (forall call, response_text r <> Method call) \/ response_text r = Method (Ok "") ->
      reply_text r = Ok "No reply.")
  /\ ((forall s, text r = Data (JStr s) -> s = "") ->
      forall e, response_text r = Method (Throw e) -> reply_text r = Throw e)
  /\ (forall (h : host) (b : reqbody) (s : state) (key prompt : string),
        nonempty (GEMINI_API_KEY h) = Some key ->
        build_prompt b = Ok prompt ->
        generateContent h model prompt = Ok r ->
        (post_gemini_chat h b s).1 =
          Ok match reply_text r with
             | Ok reply =>
                 {| status := 200; headers := [];
                    body := Some (JObj [("reply", JStr reply)]) |}
             | Throw e =>
                 {| status := 500; headers := [];
                    body := Some (JObj [("error", JStr "Gemini error");
                                        ("details", JStr e)]) |}
             end).
Proof.
  assert ((forall s, text r = Data (JStr s) -> s = "") -> text_shape r = Ok "") as Hfirst.
  { unfold text_shape. intros H. destruct (text r) as [|[]|]; try done. by rewrite (H s). }
  split; [|split; [|split; [|split]]].
  - unfold reply_text, response_shape.
    intros s Ht Hs. unfold text_shape. rewrite Ht. by rewrite bool_decide_eq_false_2.
  - unfold reply_text, response_shape.
    intros H s -> Hs. rewrite (Hfirst H). by repeat (case_bool_decide; cbn).
  - unfold reply_text, response_shape.
    intros H Hsecond. rewrite (Hfirst H).
    destruct Hsecond as [Hno | ->]; [|by repeat (case_bool_decide; cbn)].
    destruct (response_text r) as [|v|call]; [| |by destruct (Hno call)];
      by repeat (case_bool_decide; cbn).
  - unfold reply_text, response_shape.
    intros H e ->. rewrite (Hfirst H). by repeat (case_bool_decide; cbn).
  - intros h b s key prompt Hkey Hp Hr.
    unfold post_gemini_chat, try_catch, ai. rewrite Hkey.
    unfold mbind, M_bind, lift, await_generateContent, mret, M_ret.
    rewrite Hp, Hr. by destruct (reply_text r).
Qed.

(** Claim C10.  For every chat input whose [coords] object has [lat]
    equal to 0 or [lon] equal to 0, the coordinates line evaluates to the
    empty string and is filtered out: the context lines are those of the
    same input without [coords]. *)
Theorem zero_coordinate_drops_coords_line (crop coords weather : json) (q : Q) :
  get "lat" coords = Some (JNum (Finite q)) \/ get "lon" coords = Some (JNum (Finite q)) ->
  (q == 0)%Q ->
  coords_line coords = Ok ""
  /\ contextLines crop coords weather = contextLines crop JNull weather.
Proof.
  intros Hz Hq.
  assert (coords_line coords = Ok "") as Hline.
  { unfold coords_line. apply Qeq_bool_iff in Hq.
    destruct Hz as [-> | ->]; cbn; rewrite Hq; cbn; [done|]. by rewrite andb_false_r. }
  split; [done|]. unfold contextLines. by rewrite Hline.
Qed.

Lemma zero_coordinate_witness :
  coords_line (JObj [("lat", JNum (Finite 0)); ("lon", JNum (Finite 20))]) = Ok ""
  /\ contextLines (JStr "Corn") (JObj [("lat", JNum (Finite 0)); ("lon", JNum (Finite 20))]) JNull
     = contextLines (JStr "Corn") JNull JNull.
Proof.
  apply (zero_coordinate_drops_coords_line (JStr "Corn")
           (JObj [("lat", JNum (Finite 0)); ("lon", JNum (Finite 20))]) JNull 0).
  - left. reflexivity.
  - reflexivity.
Defined.

(* ===================================================================== *)
(** ** The weather handler: guards, failures, and what a request may change *)
(* ===================================================================== *)

Section WeatherGuards.

Lemma get_weather_unadmitted h q s :
  admitted h q = None ->
  exists msg code, (code = 400 \/ code = 500) /\
    get_weather h q s = (Ok (send code (error_body msg)), s).
Proof.
  unfold admitted, get_weather, try_catch. intros H.
  destruct (nonempty (q_lat q)) as [lat|]; [|by eexists _, 400; split; [left|]].
  destruct (nonempty (q_lon q)) as [lon|]; [|by eexists _, 400; split; [left|]].
  destruct (nonempty (OPENWEATHER_API_KEY h)) as [appid|]; [done|].
  by eexists _, 500; split; [right|].
Qed.

Lemma get_weather_admitted_trace h q k url s :
  admitted h q = Some (k, url) ->
  exists e evs, trace (get_weather h q s).2 = trace s ++ e :: evs.
Proof.
  intros Hadm. rewrite (get_weather_admitted _ _ _ _ Hadm).
  destruct (fresh _ _) as [c|]; [by eexists _, []|]. cbn zeta.
  destruct (fetch h url) as [r|e]; [|cbn; rewrite <- app_assoc; by eexists _, _].
  destruct (r_json r) as [payload|e]; [|cbn; rewrite <- app_assoc; by eexists _, _].
  destruct (r_ok r); cbn; rewrite <- ?app_assoc; by eexists _, _.
Qed.

End WeatherGuards.

(** Property X1.  The coordinate guard, exactly: the weather handler
    answers 400 [lat and lon are required] and leaves the state untouched
    if and only if [lat] or [lon] is absent or is the empty string.  Any
    other text passes the guard, ["0"] included. *)
Theorem coordinate_guard_exact (h : host) (q : query) (s : state) :
  nonempty (q_lat q) = None \/ nonempty (q_lon q) = None
  <-> get_weather h q s =
        (Ok {| status := 400; headers := [];
               body := Some (JObj [("error", JStr "lat and lon are required")]) |}, s).
Proof.
  split.
  - intros H. unfold get_weather, try_catch.
    destruct H as [-> | ->]; [done|]. by destruct (nonempty (q_lat q)).
  - intros H.
    destruct (nonempty (q_lat q)) as [lat|] eqn:Hlat; [|by left].
    destruct (nonempty (q_lon q)) as [lon|] eqn:Hlon; [|by right].
    exfalso.
    destruct (nonempty (OPENWEATHER_API_KEY h)) as [appid|] eqn:Hkey.
    + assert (admitted h q = Some (fingerprint lat lon (default "metric" (q_units q))
                                     (default "en" (q_lang q)),
                                   weather_url lat lon (default "metric" (q_units q))
                                     (default "en" (q_lang q)) appid)) as Hadm.
      { unfold admitted. by rewrite Hlat, Hlon, Hkey. }
      destruct (get_weather_admitted_trace h q _ _ s Hadm) as (e & evs & Ht).
      rewrite H in Ht. cbn [snd] in Ht.
      apply (f_equal (@length event)) in Ht. rewrite length_app in Ht. cbn in Ht. lia.
    + unfold get_weather, try_catch in H. rewrite Hlat, Hlon, Hkey in H. discriminate H.
Qed.

(** Property X2.  A weather request that gives both coordinates to a
    server started without [OPENWEATHER_API_KEY] (or with an empty one) is
    answered 500 [OPENWEATHER_API_KEY missing in server/.env]; the state
    is untouched, so the cache is not read and no upstream call is made. *)
Theorem weather_key_missing (h : host) (q : query) (s : state) (lat lon : string) :
  nonempty (q_lat q) = Some lat -> nonempty (q_lon q) = Some lon ->
  nonempty (OPENWEATHER_API_KEY h) = None ->
  get_weather h q s =
    (Ok {| status := 500; headers := [];
           body := Some (JObj [("error", JStr "OPENWEATHER_API_KEY missing in server/.env")]) |}, s)
  /\ upstream_calls (get_weather h q s).2 = upstream_calls s.
Proof.
  intros Hlat Hlon Hkey.
  assert (get_weather h q s =
    (Ok {| status := 500; headers := [];
           body := Some (JObj [("error", JStr "OPENWEATHER_API_KEY missing in server/.env")]) |}, s)) as E.
  { unfold get_weather, try_catch. by rewrite Hlat, Hlon, Hkey. }
  split; [exact E | by rewrite E].
Qed.

Lemma weather_key_missing_witness :
  get_weather keyless bengaluru idle =
    (Ok {| status := 500; headers := [];
           body := Some (JObj [("error", JStr "OPENWEATHER_API_KEY missing in server/.env")]) |},
     idle)
  /\ upstream_calls (get_weather keyless bengaluru idle).2 = upstream_calls idle.
Proof.
  apply (weather_key_missing keyless bengaluru idle "12.9716" "77.5946"); reflexivity.
Defined.

(** Property X3.  When the upstream call of a weather request throws, or
    the body of the upstream response cannot be parsed, the handler
    answers 500 [Weather fetch failed] with the thrown message as
    [details], after exactly one upstream call, and writes nothing to the
    cache. *)
Theorem weather_exception_reported
    (h : host) (q : query) (k url : string) (s : state) (e : string) :
  admitted h q = Some (k, url) ->
  fresh (Date_now h) (weatherCache s !! k) = None ->
  fetch h url = Throw e \/ (exists r, fetch h url = Ok r /\ r_json r = Throw e) ->
  (get_weather h q s).1 =
    Ok {| status := 500; headers := [];
          body := Some (JObj [("error", JStr "Weather fetch failed"); ("details", JStr e)]) |}
  /\ upstream_calls (get_weather h q s).2 = S (upstream_calls s)
  /\ weatherCache (get_weather h q s).2 = weatherCache s.
Proof.
  intros Hadm Hf Hthrow. rewrite (get_weather_admitted _ _ _ _ Hadm), Hf. cbn zeta.
  assert (forall s1, upstream_calls (log (Fetch url) (log (CacheGet k) s1)) = S (upstream_calls s1)) as Hn.
  { intros s1. rewrite !upstream_calls_log. cbn. lia. }
  destruct Hthrow as [-> | (r & -> & ->)]; cbn [fst snd]; by rewrite Hn.
Qed.

Lemma weather_exception_witness :
  (get_weather offline bengaluru idle).1 =
    Ok {| status := 500; headers := [];
          body := Some (JObj [("error", JStr "Weather fetch failed");
                              ("details", JStr "fetch failed")]) |}
  /\ upstream_calls (get_weather offline bengaluru idle).2 = S (upstream_calls idle)
  /\ weatherCache (get_weather offline bengaluru idle).2 = weatherCache idle.
Proof.
  apply (weather_exception_reported offline bengaluru bengaluru_key bengaluru_url idle
           "fetch failed").
  - vm_compute; reflexivity.
  - vm_compute; reflexivity.
  - left. reflexivity.
Defined.

(** Property X4.  A weather request never removes a cache entry, changes
    no entry but the one of its own fingerprint, and leaves the crops and
    the to-dos alone. *)
Theorem weather_cache_only_grows (h : host) (q : query) (s : state) :
  dom (weatherCache s) ⊆ dom (weatherCache (get_weather h q s).2)
  /\ (forall k, (forall url, admitted h q <> Some (k, url)) ->
        weatherCache (get_weather h q s).2 !! k = weatherCache s !! k)
  /\ crops (get_weather h q s).2 = crops s
  /\ todos (get_weather h q s).2 = todos s.
Proof.
  destruct (admitted h q) as [[k url]|] eqn:Hadm.
  - rewrite (get_weather_admitted _ _ _ _ Hadm).
    assert (forall o : result response * state,
      (weatherCache o.2 = weatherCache s \/
       exists e, weatherCache o.2 = <[k := e]> (weatherCache s)) ->
      crops o.2 = crops s -> todos o.2 = todos s ->
      dom (weatherCache s) ⊆ dom (weatherCache o.2)
      /\ (forall k', (forall url', Some (k, url) <> Some (k', url')) ->
            weatherCache o.2 !! k' = weatherCache s !! k')
      /\ crops o.2 = crops s /\ todos o.2 = todos s) as Hgen.
    { intros o [-> | [e ->]] Hc Ht; (split; [|split; [|done]]).
      - done.
      - done.
      - rewrite dom_insert_L. set_solver.
      - intros k' Hk'. apply lookup_insert_ne. intros ->. by apply (Hk' url). }
    destruct (fresh _ _) as [c|]; [by apply Hgen; [left|..]|]. cbn zeta.
    destruct (fetch h url) as [r|e]; [|by apply Hgen; [left|..]].
    destruct (r_json r) as [payload|e]; [|by apply Hgen; [left|..]].
    destruct (r_ok r); [|by apply Hgen; [left|..]].
    apply Hgen; [right; by eexists|done..].
  - destruct (get_weather_unadmitted h q s Hadm) as (msg & code & _ & ->). cbn. done.
Qed.

(** Property X5.  The weather handler always completes with a JSON body;
    an answer with status 200 carries the header
    [Cache-Control: public, max-age=30, stale-while-revalidate=120], and an
    answer with any other status carries no header. *)
Theorem weather_cache_control_iff_success (h : host) (q : query) (s : state) :
  exists r : response,
    (get_weather h q s).1 = Ok r
    /\ is_Some (body r)
    /\ (status r = 200 ->
        headers r = [("Cache-Control", "public, max-age=30, stale-while-revalidate=120")])
    /\ (status r <> 200 -> headers r = []).
Proof.
  destruct (admitted h q) as [[k url]|] eqn:Hadm.
  - rewrite (get_weather_admitted _ _ _ _ Hadm).
    destruct (fresh _ _) as [c|]; [by eexists; cbn|]. cbn zeta.
    destruct (fetch h url) as [r|e]; [|by eexists; cbn].
    destruct (r_json r) as [payload|e]; [|by eexists; cbn].
    destruct (r_ok r) eqn:Hok; [by eexists; cbn|].
    eexists. cbn. split; [done|]. split; [done|]. split; [|done].
    intros Hst. unfold r_ok in Hok. cbn in Hst. by rewrite Hst in Hok.
  - destruct (get_weather_unadmitted h q s Hadm) as (msg & code & Hcode & ->).
    eexists. cbn. split; [done|]. split; [done|]. split; [|done].
    intros Hst. cbn in Hst. subst code. by destruct Hcode.
Qed.

(* ===================================================================== *)
(** ** The fingerprint read back *)
(* ===================================================================== *)

Section Strings.

Lemma chars_app a b : chars (a +:+ b) = chars a ++ chars b.
Proof.
  unfold chars. induction a as [|c a IH]; [done|].
  change (c :: list_ascii_of_string (a +:+ b)
          = c :: list_ascii_of_string a ++ list_ascii_of_string b).
  by rewrite IH.
Qed.

Lemma chars_str l : chars (str l) = l.
Proof. apply list_ascii_of_string_of_list_ascii. Qed.

Lemma str_chars s : str (chars s) = s.
Proof. apply string_of_list_ascii_of_string. Qed.

Lemma chars_inj a b : chars a = chars b -> a = b.
Proof. intros H. by rewrite <- (str_chars a), <- (str_chars b), H. Qed.

Lemma string_app_assoc a b c : (a +:+ b) +:+ c = a +:+ (b +:+ c).
Proof. apply chars_inj. by rewrite !chars_app, app_assoc. Qed.

End Strings.

Section Digits.

Lemma is_digit_plain c : is_digit c = true -> c <> ","%char /\ c <> "."%char /\ c <> "-"%char.
Proof. intros H. repeat split; intros ->; vm_compute in H; discriminate. Qed.

Lemma digit_string_uint d : digit_string (NilEmpty.string_of_uint d).
Proof. unfold digit_string. induction d; cbn; constructor; done. Qed.

Lemma digit_string_dec n : digit_string (dec n).
Proof.
  unfold dec, NilZero.string_of_uint.
  destruct (N.to_uint (Z.to_N n)) eqn:E; try (rewrite <- E; apply digit_string_uint).
  by repeat constructor.
Qed.

Lemma digit_string_zeros n : digit_string (zeros n).
Proof.
  unfold digit_string, zeros. rewrite chars_str.
  induction (Z.to_nat n); cbn; constructor; done.
Qed.

Lemma digit_string_app a b : digit_string a -> digit_string b -> digit_string (a +:+ b).
Proof. unfold digit_string. rewrite chars_app. apply Forall_app_2. Qed.

Lemma comma_free_app a b : comma_free a -> comma_free b -> comma_free (a +:+ b).
Proof. unfold comma_free. rewrite chars_app. apply Forall_app_2. Qed.

Lemma digit_comma_free s : digit_string s -> comma_free s.
Proof.
  intros H. eapply Forall_impl; [exact H|]. intros c Hc. by apply is_digit_plain.
Qed.

Lemma comma_free_take n s : comma_free s -> comma_free (str (take n (chars s))).
Proof. unfold comma_free. rewrite chars_str. apply Forall_take. Qed.

Lemma comma_free_drop n s : comma_free s -> comma_free (str (drop n (chars s))).
Proof. unfold comma_free. rewrite chars_str. apply Forall_drop. Qed.

Lemma comma_free_exp_suffix n : comma_free (exp_suffix n).
Proof.
  unfold exp_suffix. apply comma_free_app; [by repeat constructor|].
  apply comma_free_app; [by destruct (0 <=? n - 1); repeat constructor|].
  apply digit_comma_free, digit_string_dec.
Qed.

Lemma comma_free_layout n k s : comma_free (layout n k s).
Proof.
  pose proof (digit_comma_free _ (digit_string_dec s)) as Hd.
  pose proof (comma_free_exp_suffix n) as He.
  assert (comma_free ".") as Hp by (by repeat constructor).
  unfold layout. cbv zeta.
  repeat match goal with
         | |- comma_free (if ?c then _ else _) => destruct c
         | |- comma_free (_ +:+ _) => apply comma_free_app
         end;
    auto using comma_free_take, comma_free_drop, digit_comma_free, digit_string_zeros.
  by repeat constructor.
Qed.

Lemma comma_free_Number_toString x : comma_free (Number_toString x).
Proof.
  destruct x as [|[]|q]; cbn [Number_toString]; [by repeat constructor ..|].
  destruct (Qeq_bool q 0); [by repeat constructor|].
  destruct (shortest (Qabs q)) as [[n k] s].
  apply comma_free_app; [by destruct (Qltb q 0); repeat constructor|].
  apply comma_free_layout.
Qed.

Lemma comma_free_fixed_digits f n : comma_free (fixed_digits f n).
Proof.
  pose proof (digit_comma_free _ (digit_string_dec n)) as Hd.
  unfold fixed_digits. cbv zeta. destruct (f =? 0); [done|].
  match goal with |- context [drop _ (chars ?x)] => set (m := x) end.
  assert (comma_free m) as Hm.
  { unfold m. destruct (Z.of_nat (String.length (dec n)) <=? f); [|done].
    apply comma_free_app; [|done]. apply digit_comma_free, digit_string_zeros. }
  apply comma_free_app; [by apply comma_free_take|].
  apply comma_free_app; [by repeat constructor | by apply comma_free_drop].
Qed.

Lemma comma_free_toFixed x f : comma_free (toFixed x f).
Proof.
  destruct x as [| |q]; try apply comma_free_Number_toString.
  unfold toFixed. cbv zeta.
  apply comma_free_app; [by destruct (Qltb q 0); repeat constructor|].
  destruct (Qle_bool _ _); [apply comma_free_Number_toString | apply comma_free_fixed_digits].
Qed.

(** Two texts with a comma after a comma-free opening agree piece by piece. *)
Lemma comma_split x x' r r' :
  comma_free x -> comma_free x' ->
  x +:+ "," +:+ r = x' +:+ "," +:+ r' -> x = x' /\ r = r'.
Proof.
  unfold comma_free. intros Hx Hx' H. apply (f_equal chars) in H.
  rewrite !chars_app in H. change (chars ",") with [","%char] in H. cbn [app] in H.
  enough (chars x = chars x' /\ chars r = chars r') as [? ?] by (split; by apply chars_inj).
  revert H Hx Hx'. generalize (chars x) (chars x') (chars r) (chars r').
  clear. intros l. induction l as [|c l IH]; intros [|c' l'] t t' H Hl Hl'; cbn in H.
  - by injection H.
  - injection H as <- _. by inversion Hl'.
  - injection H as -> _. by inversion Hl.
  - injection H as -> H. inversion Hl; inversion Hl'; subst.
    destruct (IH l' t t' H) as [-> ->]; done.
Qed.

Lemma fingerprint_split lat1 lon1 u1 l1 lat2 lon2 u2 l2 :
  comma_free u1 -> comma_free u2 ->
  fingerprint lat1 lon1 u1 l1 = fingerprint lat2 lon2 u2 l2 ->
  toFixed (Number lat1) 3 = toFixed (Number lat2) 3
  /\ toFixed (Number lon1) 3 = toFixed (Number lon2) 3
  /\ u1 = u2 /\ l1 = l2.
Proof.
  unfold fingerprint. intros H1 H2 H.
  apply comma_split in H as [Ha H]; [|apply comma_free_toFixed ..].
  apply comma_split in H as [Hb H]; [|apply comma_free_toFixed ..].
  apply comma_split in H as [Hc H]; done.
Qed.

End Digits.

Section ReadBack.

Lemma unpoint_digits s : digit_string s -> unpoint s = s.
Proof.
  unfold digit_string, unpoint. intros H.
  rewrite <- (str_chars s) at 2. f_equal.
  induction H as [|c l Hc _ IH]; cbn; [done|].
  rewrite bool_decide_eq_false_2 by (by apply is_digit_plain). cbn. by rewrite IH.
Qed.

Lemma unpoint_pointed n s :
  digit_string s ->
  unpoint (str (take n (chars s)) +:+ "." +:+ str (drop n (chars s))) = s.
Proof.
  intros H. rewrite <- (unpoint_digits s H) at 3. unfold unpoint. f_equal.
  rewrite !chars_app, !chars_str. change (chars ".") with ["."%char].
  rewrite !List.filter_app. cbn [List.filter app].
  rewrite bool_decide_eq_true_2 by done. cbn [negb app].
  by rewrite <- List.filter_app, take_drop.
Qed.

Lemma read_uint_dec n :
  0 <= n ->
  exists d, NilEmpty.uint_of_string (dec n) = Some d /\ Z.of_N (N.of_uint d) = n.
Proof.
  intros Hn. unfold dec, NilZero.string_of_uint.
  assert (Z.of_N (N.of_uint (N.to_uint (Z.to_N n))) = n) as Hof.
  { rewrite DecimalN.Unsigned.of_to. lia. }
  revert Hof. generalize (N.to_uint (Z.to_N n)). intros d Hof.
  destruct d; cbv beta iota;
    [by exists (Decimal.D0 Decimal.Nil) | eexists; split; [apply NilEmpty.usu | done] ..].
Qed.

Lemma read_uint_zeros j s d :
  NilEmpty.uint_of_string s = Some d ->
  exists d', NilEmpty.uint_of_string (zeros j +:+ s) = Some d'
             /\ N.of_uint d' = N.of_uint d.
Proof.
  intros H. unfold zeros. induction (Z.to_nat j) as [|k (d' & Hd & Hv)].
  - by exists d.
  - exists (Decimal.D0 d'). split; [|done].
    change (str (replicate (S k) "0"%char) +:+ s)
      with (String "0" (str (replicate k "0"%char) +:+ s)).
    cbn [NilEmpty.uint_of_string]. by rewrite Hd.
Qed.

(** A fixed-point rendering reads back as the integer it was made from. *)
Lemma read_fixed_digits f n : 0 <= n -> read_fixed (fixed_digits f n) = Some n.
Proof.
  intros Hn. destruct (read_uint_dec n Hn) as (d & Hd & Hv).
  unfold read_fixed, fixed_digits. cbv zeta. destruct (f =? 0).
  - rewrite unpoint_digits by apply digit_string_dec. by rewrite Hd, Hv.
  - match goal with |- context [drop _ (chars ?x)] => set (m := x) end.
    assert (digit_string m /\ exists d', NilEmpty.uint_of_string m = Some d'
                                         /\ N.of_uint d' = N.of_uint d) as (Hm & d' & Hd' & Hv').
    { unfold m. destruct (Z.of_nat (String.length (dec n)) <=? f).
      - split; [apply digit_string_app;
                [apply digit_string_zeros | apply digit_string_dec]|].
        by apply read_uint_zeros.
      - split; [apply digit_string_dec|]. by exists d. }
    rewrite unpoint_pointed by done. by rewrite Hd', Hv', Hv.
Qed.

Lemma read_fixed_minus s : read_fixed ("-" +:+ s) = None.
Proof.
  unfold read_fixed, unpoint.
  change (chars ("-" +:+ s)) with ("-"%char :: chars s).
  cbn [List.filter]. rewrite bool_decide_eq_false_2 by done. cbn [negb].
  change (str ("-"%char :: ?l)) with (String "-" (str l)).
  cbn [NilEmpty.uint_of_string]. by destruct (NilEmpty.uint_of_string _).
Qed.

Lemma fixed_int_nonneg f a : (0 <= a)%Q -> 0 <= fixed_int f a.
Proof.
  intros Ha. unfold fixed_int. change 0 with (Qfloor 0). apply Qfloor_resp_le.
  assert (0 < pow10 f)%Q by (apply Qpower_0_lt; done).
  assert (0 <= a * pow10 f)%Q by (apply Qmult_le_0_compat; lra). lra.
Qed.

Lemma toFixed_fixed_range a f :
  fixed_range a ->
  toFixed (Finite a) f
  = (if Qltb a 0 then "-" else "") +:+ fixed_digits f (fixed_int f (Qabs a)).
Proof.
  intros Ra. unfold toFixed. cbv zeta.
  apply Qltb_true in Ra. unfold Qltb in Ra. apply negb_true_iff in Ra. by rewrite Ra.
Qed.

Lemma toFixed_inj a b f :
  fixed_range a -> fixed_range b ->
  toFixed (Finite a) f = toFixed (Finite b) f ->
  Qltb a 0 = Qltb b 0 /\ fixed_int f (Qabs a) = fixed_int f (Qabs b).
Proof.
  intros Ra Rb. rewrite !toFixed_fixed_range by done. intros H.
  pose proof (read_fixed_digits f _ (fixed_int_nonneg f _ (Qabs_nonneg a))) as Ha.
  pose proof (read_fixed_digits f _ (fixed_int_nonneg f _ (Qabs_nonneg b))) as Hb.
  apply (f_equal read_fixed) in H as Hr.
  destruct (Qltb a 0), (Qltb b 0).
  - apply String.app_inj in H. rewrite H in Ha. split; [done | congruence].
  - rewrite read_fixed_minus in Hr. change ("" +:+ ?x) with x in Hr. congruence.
  - rewrite read_fixed_minus in Hr. change ("" +:+ ?x) with x in Hr. congruence.
  - change ("" +:+ ?x) with x in H. rewrite H in Ha. split; [done | congruence].
Qed.

Lemma fixed_int_cell a n :
  fixed_int 3 a = n -> (inject_Z n - (1 # 2) <= a * 1000 < inject_Z n + (1 # 2))%Q.
Proof.
  unfold fixed_int. change (pow10 3) with (1000 # 1)%Q. intros <-.
  pose proof (Qfloor_le (a * 1000 + (1 # 2))) as Hlo.
  pose proof (Qlt_floor (a * 1000 + (1 # 2))) as Hhi.
  rewrite inject_Z_plus in Hhi. change (inject_Z 1) with 1%Q in Hhi.
  split; lra.
Qed.

Lemma toFixed_close a b :
  fixed_range a -> fixed_range b ->
  toFixed (Finite a) 3 = toFixed (Finite b) 3 -> (Qabs (a - b) < 1 # 1000)%Q.
Proof.
  intros Ra Rb H. destruct (toFixed_inj a b 3 Ra Rb H) as [Hs Hn].
  pose proof (fixed_int_cell (Qabs a) _ eq_refl) as Ha.
  pose proof (fixed_int_cell (Qabs b) _ (eq_sym Hn)) as Hb.
  apply Qabs_Qlt_condition.
  destruct (Qltb a 0) eqn:Sa; symmetry in Hs.
  - apply Qltb_true in Sa, Hs.
    pose proof (Qabs_neg a) as Ea. pose proof (Qabs_neg b) as Eb. split; lra.
  - apply Qltb_false in Sa, Hs.
    pose proof (Qabs_pos a) as Ea. pose proof (Qabs_pos b) as Eb. split; lra.
Qed.

End ReadBack.

(** Property X6.  Requests that share a cache entry are close: when two
    weather requests with finite coordinates below [10^21] in magnitude
    and comma-free unit systems have the same fingerprint, their latitudes
    are less than 0.001 apart, so are their longitudes, and their unit
    systems and languages are the same. *)
Theorem shared_fingerprint_close
    (lat1 lon1 u1 l1 lat2 lon2 u2 l2 : string) (a b c d : Q) :
  Number lat1 = Finite a -> Number lat2 = Finite b ->
  Number lon1 = Finite c -> Number lon2 = Finite d ->
  fixed_range a -> fixed_range b -> fixed_range c -> fixed_range d ->
  comma_free u1 -> comma_free u2 ->
  fingerprint lat1 lon1 u1 l1 = fingerprint lat2 lon2 u2 l2 ->
  differ_by_less (1 # 1000) lat1 lat2 /\ differ_by_less (1 # 1000) lon1 lon2
  /\ u1 = u2 /\ l1 = l2.
Proof.
  intros Ea Eb Ec Ed Ra Rb Rc Rd H1 H2 H.
  apply fingerprint_split in H as (Hlat & Hlon & Hu & Hl); [|done..].
  unfold differ_by_less. rewrite Ea, Eb in Hlat |- *. rewrite Ec, Ed in Hlon |- *.
  split; [by apply toFixed_close|]. split; [by apply toFixed_close|]. done.
Qed.

Lemma shared_fingerprint_close_witness :
  differ_by_less (1 # 1000) "12.9716" "12.9719"
  /\ differ_by_less (1 # 1000) "77.5946" "77.5948"
  /\ "metric" = "metric" /\ "en" = "en".
Proof.
  apply (shared_fingerprint_close "12.9716" "77.5946" "metric" "en"
           "12.9719" "77.5948" "metric" "en"
           (value_of (Number "12.9716")) (value_of (Number "12.9719"))
           (value_of (Number "77.5946")) (value_of (Number "77.5948"))).
  - vm_compute; reflexivity.
  - vm_compute; reflexivity.
  - vm_compute; reflexivity.
  - vm_compute; reflexivity.
  - vm_compute; reflexivity.
  - vm_compute; reflexivity.
  - vm_compute; reflexivity.
  - vm_compute; reflexivity.
  - unfold comma_free. vm_compute. repeat constructor; discriminate.
  - unfold comma_free. vm_compute. repeat constructor; discriminate.
  - vm_compute; reflexivity.
Defined.

(** Property X7.  The cache key does not delimit its fields: a unit
    system ending in [,b] with language [c] has the fingerprint of the
    unit system without that ending with language [b,c], although the two
    requests ask the upstream service for different URLs. *)
Theorem fingerprint_delimiter_collision (lat lon a b c appid : string) :
  fingerprint lat lon (a +:+ "," +:+ b) c = fingerprint lat lon a (b +:+ "," +:+ c)
  /\ weather_url lat lon (a +:+ "," +:+ b) c appid
     <> weather_url lat lon a (b +:+ "," +:+ c) appid.
Proof.
  unfold fingerprint, weather_url. split.
  - by rewrite !string_app_assoc.
  - rewrite !string_app_assoc. intros H.
    repeat apply String.app_inj in H. discriminate H.
Qed.

(* ===================================================================== *)
(** ** Collections: deleting, updating, and sequences of requests *)
(* ===================================================================== *)

Section Merging.

Lemma lookup_merge k c b :
  lookup_prop k (merge c b) =
    match body_value k b with Some v => Some v | None => lookup_prop k c end.
Proof.
  unfold merge, body_value. generalize (body_props b) as ps. intros ps. revert c.
  induction ps as [|[k0 v0] ps IH]; intros c; cbn [fold_left rev]; [done|].
  rewrite IH. cbn [fst snd]. rewrite lookup_prop_app, lookup_obj_set.
  destruct (lookup_prop k (rev ps)); cbn; [done|].
  rewrite (bool_decide_ext (k0 = k) (k = k0)) by done. by case_bool_decide.
Qed.

Lemma has_id_merge_keep id c b :
  body_value "id" b = None -> has_id id (merge c b) = has_id id c.
Proof. intros H. unfold has_id. by rewrite lookup_merge, H. Qed.

Lemma has_id_merge_change id c b v :
  body_value "id" b = Some v -> v <> JStr id -> has_id id (merge c b) = false.
Proof.
  intros H Hv. unfold has_id. rewrite lookup_merge, H.
  destruct v; try done. apply bool_decide_eq_false_2. congruence.
Qed.

Lemma remove_has_id id (xs : list object) c :
  In c (remove id xs) <-> In c xs /\ has_id id c = false.
Proof.
  unfold remove. rewrite List.filter_In. by rewrite negb_true_iff.
Qed.

Lemma remove_none id (xs : list object) :
  (forall c, In c xs -> has_id id c = false) -> remove id xs = xs.
Proof.
  induction xs as [|c xs IH]; intros H; [done|]. cbn.
  rewrite (H c) by (by left). cbn. f_equal. apply IH. intros c' Hc'. apply H. by right.
Qed.

Lemma remove_idem id (xs : list object) : remove id (remove id xs) = remove id xs.
Proof. apply remove_none. intros c Hc. by apply remove_has_id in Hc as [_ ?]. Qed.

Lemma remove_sublist id (xs : list object) : remove id xs `sublist_of` xs.
Proof.
  induction xs as [|c xs IH]; [done|]. cbn.
  destruct (has_id id c); cbn; [by apply sublist_cons | by apply sublist_skip].
Qed.

Lemma with_crops_same s : with_crops (crops s) s = s.
Proof. by destruct s. Qed.

Lemma update_all_length id b xs : length (update_all id b xs) = length xs.
Proof. apply List.length_map. Qed.

Lemma find_app_none {A} (f : A -> bool) xs ys :
  (forall x, In x xs -> f x = false) -> List.find f (xs ++ ys) = List.find f ys.
Proof.
  induction xs as [|x xs IH]; intros H; [done|]. cbn.
  rewrite (H x) by (by left). apply IH. intros y Hy. apply H. by right.
Qed.

Lemma find_update_all_changed id b v xs :
  body_value "id" b = Some v -> v <> JStr id ->
  List.find (has_id id) (update_all id b xs) = None.
Proof.
  intros Hb Hv. induction xs as [|c xs IH]; [done|]. cbn.
  destruct (has_id id c) eqn:Hc.
  - by rewrite (has_id_merge_change id c b v).
  - by rewrite Hc.
Qed.

Lemma update_all_others id b (xs : list object) c :
  In c xs -> has_id id c = false -> In c (update_all id b xs).
Proof.
  intros Hin Hc. unfold update_all. apply List.in_map_iff. exists c. by rewrite Hc.
Qed.

Lemma replace_prop_same k v o : lookup_prop k o = Some v -> replace_prop k v o = o.
Proof.
  induction o as [|[k' v'] o IH]; cbn; [done|].
  case_bool_decide as E; [by intros [= ->]; subst | by intros ->%IH].
Qed.

Lemma obj_set_same k v o : lookup_prop k o = Some v -> obj_set k v o = o.
Proof.
  intros H. unfold obj_set, has_prop. rewrite H. by apply replace_prop_same.
Qed.

Lemma lookup_prop_absent k (ps : object) :
  ~ In k (List.map fst ps) -> lookup_prop k ps = None.
Proof.
  induction ps as [|[k' v'] ps IH]; cbn; [done|]. intros H.
  rewrite bool_decide_eq_false_2 by (intros ->; apply H; by left).
  apply IH. intros Hin. apply H. by right.
Qed.

Lemma body_value_NoDup k v b :
  List.NoDup (List.map fst (body_props b)) -> In (k, v) (body_props b) ->
  body_value k b = Some v.
Proof.
  unfold body_value. generalize (body_props b). intros ps.
  induction ps as [|[k0 v0] ps IH]; [done|]. cbn [List.map fst rev].
  intros Hnd Hin. apply List.NoDup_cons_iff in Hnd as [Hk0 Hnd].
  rewrite lookup_prop_app. destruct Hin as [[= -> ->] | Hin].
  - rewrite lookup_prop_absent.
    + cbn. by rewrite bool_decide_eq_true_2.
    + rewrite List.map_rev, <- List.in_rev. done.
  - by rewrite (IH Hnd Hin).
Qed.

Lemma merge_fixed o b :
  (forall k v, In (k, v) (body_props b) -> lookup_prop k o = Some v) -> merge o b = o.
Proof.
  unfold merge. generalize (body_props b). intros ps.
  induction ps as [|[k v] ps IH]; intros H; [done|]. cbn [fold_left fst snd].
  rewrite obj_set_same by (apply H; by left). apply IH. intros k' v' Hin. apply H. by right.
Qed.

(** Merging the same body a second time changes nothing. *)
Lemma merge_idem c b :
  List.NoDup (List.map fst (body_props b)) -> merge (merge c b) b = merge c b.
Proof.
  intros Hnd. apply merge_fixed. intros k v Hin.
  by rewrite lookup_merge, (body_value_NoDup k v b Hnd Hin).
Qed.

Lemma update_all_idem id b xs :
  List.NoDup (List.map fst (body_props b)) ->
  update_all id b (update_all id b xs) = update_all id b xs.
Proof.
  intros Hnd. unfold update_all. rewrite List.map_map. apply List.map_ext. intros c.
  destruct (has_id id c) eqn:Hc; [|by rewrite Hc].
  destruct (has_id id (merge c b)); [by apply merge_idem | done].
Qed.

End Merging.

(** Property X8.  Deleting a crop answers 204 without a body; the crops
    left are exactly those that do not carry the id, in their order;
    deleting again changes nothing more; an id that no crop carries
    leaves the whole state as it was; and the to-dos and the weather cache
    are never touched: the to-dos of a deleted crop keep their [cropId]. *)
Theorem crop_deleted (id : string) (s : state) :
  (delete_crops id s).1 = Ok {| status := 204; headers := []; body := None |}
  /\ (forall c, In c (crops (delete_crops id s).2) <-> In c (crops s) /\ has_id id c = false)
  /\ crops (delete_crops id s).2 `sublist_of` crops s
  /\ delete_crops id (delete_crops id s).2 = delete_crops id s
  /\ ((forall c, In c (crops s) -> has_id id c = false) -> (delete_crops id s).2 = s)
  /\ todos (delete_crops id s).2 = todos s
  /\ weatherCache (delete_crops id s).2 = weatherCache s.
Proof.
  unfold delete_crops, mbind, M_bind, modify, mret, M_ret. cbn [fst snd crops with_crops].
  split; [done|]. split; [apply remove_has_id|]. split; [apply remove_sublist|].
  split; [by rewrite remove_idem|]. split; [|done].
  intros Hnone. by rewrite remove_none, with_crops_same.
Qed.

(** Property X9.  Updating a crop that exists, with a body that has no
    [id], answers 200 with the first crop carrying the id merged with the
    body: every property the body names has the body's value, every other
    one keeps the crop's.  The collection keeps its length, the crops with
    other ids stay, and the to-dos are untouched. *)
Theorem crop_updated (id : string) (b : reqbody) (s : state) (c0 : object) :
  List.find (has_id id) (crops s) = Some c0 ->
  body_value "id" b = None ->
  (put_crops id b s).1 = Ok {| status := 200; headers := []; body := Some (JObj (merge c0 b)) |}
  /\ (forall k, lookup_prop k (merge c0 b) =
                  match body_value k b with Some v => Some v | None => lookup_prop k c0 end)
  /\ length (crops (put_crops id b s).2) = length (crops s)
  /\ (forall c, In c (crops s) -> has_id id c = false -> In c (crops (put_crops id b s).2))
  /\ todos (put_crops id b s).2 = todos s.
Proof.
  intros Hfind Hb.
  unfold put_crops, mbind, M_bind, modify, gets, mret, M_ret. cbn [fst snd crops todos with_crops].
  split; [|split; [|split; [|split]]].
  - unfold found. rewrite find_update_all, Hfind; [done|].
    intros c Hc. by rewrite has_id_merge_keep.
  - intros k. apply lookup_merge.
  - apply update_all_length.
  - intros c. apply update_all_others.
  - done.
Qed.

Lemma crop_updated_witness :
  (put_crops "c1" renamed one_crop).1
    = Ok {| status := 200; headers := []; body := Some (JObj (merge durum renamed)) |}
  /\ (forall k, lookup_prop k (merge durum renamed) =
                  match body_value k renamed with
                  | Some v => Some v
                  | None => lookup_prop k durum
                  end)
  /\ length (crops (put_crops "c1" renamed one_crop).2) = length (crops one_crop)
  /\ (forall c, In c (crops one_crop) -> has_id "c1" c = false ->
        In c (crops (put_crops "c1" renamed one_crop).2))
  /\ todos (put_crops "c1" renamed one_crop).2 = todos one_crop.
Proof.
  apply (crop_updated "c1" renamed one_crop durum); reflexivity.
Defined.

(** Property X10.  An update whose body carries an [id] other than the
    string in the URL renames every crop it matches and then finds none:
    it answers 200 with [null] although the crops were changed, and
    afterwards no crop carries the old id. *)
Theorem crop_id_overwritten (id : string) (b : reqbody) (s : state) (v : json) :
  body_value "id" b = Some v -> v <> JStr id ->
  (put_crops id b s).1 = Ok {| status := 200; headers := []; body := Some JNull |}
  /\ (forall c, In c (crops (put_crops id b s).2) -> has_id id c = false)
  /\ (forall c, In c (crops s) -> has_id id c = true ->
        In (merge c b) (crops (put_crops id b s).2) /\ lookup_prop "id" (merge c b) = Some v).
Proof.
  intros Hb Hv.
  unfold put_crops, mbind, M_bind, modify, gets, mret, M_ret. cbn [fst snd crops with_crops].
  split; [|split].
  - unfold found. by rewrite (find_update_all_changed id b v).
  - intros c Hc. unfold update_all in Hc. apply List.in_map_iff in Hc as (c' & <- & Hc').
    destruct (has_id id c') eqn:E; [by apply (has_id_merge_change id c' b v) | done].
  - intros c Hin Hc. split.
    + unfold update_all. apply List.in_map_iff. exists c. by rewrite Hc.
    + by rewrite lookup_merge, Hb.
Qed.

Lemma crop_id_overwritten_witness :
  (put_crops "c1" reassigned one_crop).1
    = Ok {| status := 200; headers := []; body := Some JNull |}
  /\ (forall c, In c (crops (put_crops "c1" reassigned one_crop).2) -> has_id "c1" c = false)
  /\ (forall c, In c (crops one_crop) -> has_id "c1" c = true ->
        In (merge c reassigned) (crops (put_crops "c1" reassigned one_crop).2)
        /\ lookup_prop "id" (merge c reassigned) = Some (JStr "c9")).
Proof.
  apply (crop_id_overwritten "c1" reassigned one_crop (JStr "c9")).
  - reflexivity.
  - discriminate.
Defined.

(** Property X11.  Updates are idempotent: with a body that names no
    property twice, repeating an update of a crop or of a to-do answers as
    the first update did and leaves the state the first update produced,
    whether or not the id exists and whether or not the body replaces it. *)
Theorem put_idempotent (id : string) (b : reqbody) (s : state) :
  List.NoDup (List.map fst (body_props b)) ->
  put_crops id b (put_crops id b s).2 = put_crops id b s
  /\ put_todos id b (put_todos id b s).2 = put_todos id b s.
Proof.
  intros Hnd.
  unfold put_crops, put_todos, mbind, M_bind, modify, gets, mret, M_ret.
  cbn [fst snd crops todos with_crops with_todos].
  by rewrite !update_all_idem.
Qed.

Lemma put_idempotent_witness :
  put_crops "c1" renamed (put_crops "c1" renamed one_crop).2 = put_crops "c1" renamed one_crop
  /\ put_todos "c1" renamed (put_todos "c1" renamed one_crop).2
     = put_todos "c1" renamed one_crop.
Proof.
  apply (put_idempotent "c1" renamed one_crop).
  cbn. repeat constructor; cbn; intuition discriminate.
Defined.

(** Property X12.  Creating a to-do and then deleting it by the id just
    generated restores the state, provided no earlier to-do carries
    that id. *)
Theorem todo_created_then_deleted (h : host) (b : reqbody) (s : state) :
  (forall t, In t (todos s) -> has_id (makeId h) t = false) ->
  delete_todos (makeId h) (post_todos h b s).2
    = (Ok {| status := 204; headers := []; body := None |}, s).
Proof.
  intros Hfresh.
  unfold delete_todos, post_todos, mbind, M_bind, modify, mret, M_ret.
  cbn [fst snd todos with_todos]. unfold remove. rewrite List.filter_app.
  fold (remove (makeId h) (todos s)). rewrite (remove_none _ _ Hfresh).
  cbn [List.filter]. unfold has_id at 1. cbn [lookup_prop].
  rewrite (bool_decide_eq_true_2 ("id" = "id")) by done.
  rewrite (bool_decide_eq_true_2 (makeId h = makeId h)) by done. cbn.
  rewrite app_nil_r. by destruct s.
Qed.

Lemma todo_created_then_deleted_witness :
  delete_todos (makeId (a_host 1000 200 clear_sky))
    (post_todos (a_host 1000 200 clear_sky) sow two_todos).2
  = (Ok {| status := 204; headers := []; body := None |}, two_todos).
Proof.
  apply (todo_created_then_deleted (a_host 1000 200 clear_sky) sow two_todos).
  intros t [<- | [<- | []]]; reflexivity.
Defined.

(** Property X13.  A to-do just created and then updated with
    [{done: true}] is answered as the entity that was created (generated
    id, [title], [cropId] and [when] from the creating body or their
    defaults) with [done] set to [true], provided no earlier to-do carries
    the generated id. *)
Theorem todo_created_then_marked_done (h : host) (b : reqbody) (s : state) :
  (forall t, In t (todos s) -> has_id (makeId h) t = false) ->
  (put_todos (makeId h) done_true (post_todos h b s).2).1 =
    Ok {| status := 200; headers := [];
          body := Some (JObj [("id", JStr (makeId h)); ("title", field "title" (JStr "Task") b);
                              ("cropId", field "cropId" JNull b); ("when", field "when" JNull b);
                              ("done", JBool true)]) |}.
Proof.
  intros Hfresh.
  unfold put_todos, post_todos, mbind, M_bind, modify, gets, mret, M_ret.
  cbn [fst snd todos with_todos]. unfold found.
  rewrite find_update_all by (intros c Hc; cbn; by rewrite has_id_obj_set).
  rewrite find_app_none by done. cbn [List.find]. unfold has_id at 1. cbn [lookup_prop].
  rewrite (bool_decide_eq_true_2 ("id" = "id")) by done.
  rewrite (bool_decide_eq_true_2 (makeId h = makeId h)) by done. cbn [fmap option_fmap option_map].
  unfold merge, done_true. cbn [body_props fold_left fst snd].
  unfold obj_set, has_prop. cbn [lookup_prop replace_prop].
  repeat (rewrite bool_decide_eq_false_2 by done). 
  rewrite (bool_decide_eq_true_2 ("done" = "done")) by done. done.
Qed.

Lemma todo_created_then_marked_done_witness :
  (put_todos (makeId offline) done_true (post_todos offline sow two_todos).2).1 =
    Ok {| status := 200; headers := [];
          body := Some (JObj [("id", JStr (makeId offline));
                              ("title", field "title" (JStr "Task") sow);
                              ("cropId", field "cropId" JNull sow);
                              ("when", field "when" JNull sow);
                              ("done", JBool true)]) |}.
Proof.
  apply (todo_created_then_marked_done offline sow two_todos).
  intros t [<- | [<- | []]]; reflexivity.
Defined.

(* ===================================================================== *)
(** ** The chat relay: every way it can answer *)
(* ===================================================================== *)

Section ChatCalls.

Lemma reply_text_nonempty r s : reply_text r = Ok s -> s <> "".
Proof.
  unfold reply_text. destruct (text_shape r) as [s1|]; [|done].
  case_bool_decide as H1; cbn; [|by intros [= <-]].
  destruct (response_shape r) as [s2|]; [|done].
  case_bool_decide as H2; cbn; [by intros [= <-] | by intros [= <-]].
Qed.

Lemma generate_calls_log e s :
  generate_calls (log e s) = (generate_calls s + (if is_generate e then 1 else 0))%nat.
Proof.
  unfold generate_calls, log; cbn [trace].
  rewrite List.filter_app, length_app. by destruct e.
Qed.

End ChatCalls.

(** Property X14.  On a server started without [GEMINI_API_KEY] (or with
    an empty one) the chat relay answers 500
    [GEMINI_API_KEY missing in server/.env] whatever the body; the state
    is untouched and the model is not called. *)
Theorem chat_key_missing (h : host) (b : reqbody) (s : state) :
  nonempty (GEMINI_API_KEY h) = None ->
  post_gemini_chat h b s =
    (Ok {| status := 500; headers := [];
           body := Some (JObj [("error", JStr "GEMINI_API_KEY missing in server/.env")]) |}, s)
  /\ generate_calls (post_gemini_chat h b s).2 = generate_calls s.
Proof.
  intros Hkey.
  assert (post_gemini_chat h b s =
    (Ok {| status := 500; headers := [];
           body := Some (JObj [("error", JStr "GEMINI_API_KEY missing in server/.env")]) |}, s)) as E.
  { unfold post_gemini_chat, try_catch, ai. by rewrite Hkey. }
  split; [exact E | by rewrite E].
Qed.

Lemma chat_key_missing_witness :
  post_gemini_chat keyless corn idle =
    (Ok {| status := 500; headers := [];
           body := Some (JObj [("error", JStr "GEMINI_API_KEY missing in server/.env")]) |},
     idle)
  /\ generate_calls (post_gemini_chat keyless corn idle).2 = generate_calls idle.
Proof.
  apply (chat_key_missing keyless corn idle). reflexivity.
Defined.

(** Property X15.  The chat relay always completes, in one of two ways:
    200 with [{reply}] where [reply] is a non-empty string, or 500 with an
    [error] string.  It calls the model at most once, and changes neither
    the weather cache nor the crops nor the to-dos. *)
Theorem chat_always_answers (h : host) (b : reqbody) (s : state) :
  exists r : response,
    (post_gemini_chat h b s).1 = Ok r
    /\ ((status r = 200 /\ exists reply, body r = Some (JObj [("reply", JStr reply)]) /\ reply <> "")
        \/ (status r = 500 /\ exists msg, get "error" (default JNull (body r)) = Some (JStr msg)))
    /\ (generate_calls (post_gemini_chat h b s).2 <= generate_calls s + 1)%nat
    /\ weatherCache (post_gemini_chat h b s).2 = weatherCache s
    /\ crops (post_gemini_chat h b s).2 = crops s
    /\ todos (post_gemini_chat h b s).2 = todos s.
Proof.
  unfold post_gemini_chat, try_catch.
  destruct (ai h) as [client|].
  2: { eexists. cbn. split; [done|]. split; [right; split; [done|by eexists]|]. split; [lia|done]. }
  unfold mbind, M_bind, lift, await_generateContent, mret, M_ret.
  destruct (build_prompt b) as [prompt|e].
  2: { eexists. cbn. split; [done|]. split; [right; split; [done|by eexists]|]. split; [lia|done]. }
  assert (generate_calls (log (Generate model prompt) s) <= generate_calls s + 1)%nat as Hn
    by (rewrite generate_calls_log; cbn; lia).
  destruct (client model prompt) as [r|e].
  2: { eexists. cbn [fst snd]. split; [done|]. split; [right; split; [done|by eexists]|]. done. }
  destruct (reply_text r) as [reply|e] eqn:Hreply.
  2: { eexists. cbn [fst snd]. split; [done|]. split; [right; split; [done|by eexists]|]. done. }
  eexists. cbn [fst snd]. split; [done|]. split; [|done].
  left. split; [done|]. exists reply. split; [done|]. by eapply reply_text_nonempty.
Qed.

(** Property X16.  With the key configured, every failure of the chat
    relay is reported as 500 [Gemini error] with the thrown message as
    [details]: a prompt that cannot be built (then the model is not
    called), a model call that throws, and a reply accessor that throws
    (both after the one call). *)
Theorem chat_failure_reported (h : host) (b : reqbody) (s : state) (key e : string) :
  nonempty (GEMINI_API_KEY h) = Some key ->
  let failed :=
    {| status := 500; headers := [];
       body := Some (JObj [("error", JStr "Gemini error"); ("details", JStr e)]) |} in
  (build_prompt b = Throw e -> post_gemini_chat h b s = (Ok failed, s))
  /\ (forall prompt,
        build_prompt b = Ok prompt ->
        generateContent h model prompt = Throw e
        \/ (exists r, generateContent h model prompt = Ok r /\ reply_text r = Throw e) ->
        post_gemini_chat h b s = (Ok failed, log (Generate "gemini-2.0-flash" prompt) s)).
Proof.
  intros Hkey failed. unfold post_gemini_chat, try_catch, ai. rewrite Hkey.
  unfold mbind, M_bind, lift, await_generateContent, mret, M_ret. split.
  - by intros ->.
  - intros prompt -> [-> | (r & -> & ->)]; done.
Qed.

Lemma chat_failure_reported_witness :
  let failed :=
    {| status := 500; headers := [];
       body := Some (JObj [("error", JStr "Gemini error"); ("details", JStr "quota exceeded")]) |} in
  (build_prompt corn = Throw "quota exceeded" -> post_gemini_chat offline corn idle = (Ok failed, idle))
  /\ (forall prompt,
        build_prompt corn = Ok prompt ->
        generateContent offline model prompt = Throw "quota exceeded"
        \/ (exists r, generateContent offline model prompt = Ok r
                      /\ reply_text r = Throw "quota exceeded") ->
        post_gemini_chat offline corn idle
        = (Ok failed, log (Generate "gemini-2.0-flash" prompt) idle)).
Proof.
  apply (chat_failure_reported offline corn idle "gem" "quota exceeded"). reflexivity.
Defined.

(** A crop whose [toString] is not callable cannot be put in the prompt:
    the relay reports the TypeError and calls no model. *)
Example unprintable_crop_reported :
  exists e, build_prompt unprintable = Throw e
            /\ post_gemini_chat (a_host 1000 200 clear_sky) unprintable idle
               = (Ok {| status := 500; headers := [];
                        body := Some (JObj [("error", JStr "Gemini error");
                                            ("details", JStr e)]) |}, idle).
Proof. eexists. split; vm_compute; reflexivity. Qed.

(* ===================================================================== *)
(** ** Trimming: the prompt and the allowed origins *)
(* ===================================================================== *)

Section Trimming.

Lemma blank_app x y : blank x -> blank y -> blank (x ++ y).
Proof.
  intros Hx Hy.
  induction Hx; cbn; [done | apply blank_1 | apply blank_2 | apply blank_3]; auto.
Qed.

Lemma trim_front_split rv l :
  exists p, l = p ++ trim_front rv l /\ blank (if rv then List.rev p else p).
Proof.
  induction l as [l IH] using (induction_ltof1 _ (@length ascii)). unfold ltof in IH.
  destruct l as [|a r1]; [by exists []; split; [|destruct rv; constructor]|].
  cbn [trim_front]. destruct (ws1 a) eqn:H1.
  { destruct (IH r1) as (p & Hp & Hb); [cbn; lia|].
    exists (a :: p). split; [cbn; by rewrite <- Hp|].
    destruct rv; [cbn; apply blank_app; [done|by apply blank_1; [|constructor]] | by apply blank_1]. }
  destruct r1 as [|b r2]; [by exists []; split; [|destruct rv; constructor]|].
  destruct (if rv then ws2 b a else ws2 a b) eqn:H2.
  { destruct (IH r2) as (p & Hp & Hb); [cbn; lia|].
    exists (a :: b :: p). split; [cbn; by rewrite <- Hp|].
    destruct rv; [|by apply blank_2].
    cbn. rewrite <- app_assoc. apply blank_app; [done|]. cbn. by apply blank_2; [|constructor]. }
  destruct r2 as [|c r3]; [by exists []; split; [|destruct rv; constructor]|].
  destruct (if rv then ws3 c b a else ws3 a b c) eqn:H3.
  { destruct (IH r3) as (p & Hp & Hb); [cbn; lia|].
    exists (a :: b :: c :: p). split; [cbn; by rewrite <- Hp|].
    destruct rv; [|by apply blank_3].
    cbn. rewrite <- !app_assoc. apply blank_app; [done|]. cbn. by apply blank_3; [|constructor]. }
  by exists []; split; [|destruct rv; constructor].
Qed.

(** What [trim] removes is white space, at the two ends. *)
Lemma trim_chars_split l :
  exists p q, l = p ++ trim_chars l ++ q /\ blank p /\ blank q.
Proof.
  unfold trim_chars.
  destruct (trim_front_split false l) as (p & Hp & Hbp).
  destruct (trim_front_split true (List.rev (trim_front false l))) as (q & Hq & Hbq).
  exists p, (List.rev q). split; [|done].
  rewrite Hp at 1. f_equal. rewrite <- List.rev_app_distr, <- Hq. by rewrite List.rev_involutive.
Qed.

Lemma trim_front_fix rv l : starts_blank rv l = false -> trim_front rv l = l.
Proof.
  destruct l as [|a [|b [|c r]]]; cbn [starts_blank trim_front]; [done|..].
  - by intros ->%orb_false_elim%proj1.
  - intros [-> H]%orb_false_elim. apply orb_false_elim in H as [-> _]. done.
  - intros [-> H]%orb_false_elim. apply orb_false_elim in H as [-> ->]. done.
Qed.

Lemma trim_front_clean rv l : starts_blank rv (trim_front rv l) = false.
Proof.
  induction l as [l IH] using (induction_ltof1 _ (@length ascii)). unfold ltof in IH.
  destruct l as [|a r1]; [done|]. cbn [trim_front].
  destruct (ws1 a) eqn:H1; [apply IH; cbn; lia|].
  destruct r1 as [|b r2]; [by cbn [starts_blank]; rewrite H1|].
  destruct (if rv then ws2 b a else ws2 a b) eqn:H2; [apply IH; cbn; lia|].
  destruct r2 as [|c r3]; [by cbn [starts_blank]; rewrite H1, H2|].
  destruct (if rv then ws3 c b a else ws3 a b c) eqn:H3; [apply IH; cbn; lia|].
  by cbn [starts_blank]; rewrite H1, H2, H3.
Qed.

Lemma starts_blank_prefix m t :
  starts_blank false (m ++ t) = false -> starts_blank false m = false.
Proof.
  destruct m as [|a [|b [|c m]]]; cbn [app starts_blank]; [done|..].
  - by intros [-> _]%orb_false_elim.
  - intros [-> H]%orb_false_elim. cbn [orb]. destruct t.
    + done.
    + apply orb_false_elim in H as [-> _]. done.
  - done.
Qed.

Lemma trim_chars_idem l : trim_chars (trim_chars l) = trim_chars l.
Proof.
  unfold trim_chars.
  set (l1 := trim_front false l). set (x := trim_front true (List.rev l1)).
  destruct (trim_front_split true (List.rev l1)) as (p & Hp & _). fold x in Hp.
  assert (l1 = List.rev x ++ List.rev p) as Hl1.
  { by rewrite <- List.rev_app_distr, <- Hp, List.rev_involutive. }
  rewrite (trim_front_fix false (List.rev x)).
  - rewrite List.rev_involutive, (trim_front_fix true x); [done|]. apply trim_front_clean.
  - apply (starts_blank_prefix _ (List.rev p)). rewrite <- Hl1. apply trim_front_clean.
Qed.

Lemma trim_idem s : trim (trim s) = trim s.
Proof. unfold trim. by rewrite chars_str, trim_chars_idem. Qed.

Lemma blank_head c t :
  blank (c :: t) ->
  ws1 c = true \/ byte c = 194 \/ byte c = 225 \/ byte c = 226 \/ byte c = 227
  \/ byte c = 239.
Proof.
  inversion 1 as [|? ? H1|? ? ? H2|? ? ? ? H3]; subst; [by left|..].
  - apply andb_prop in H2 as [H2 _]. apply Z.eqb_eq in H2. auto.
  - unfold ws3 in H3. cbv zeta in H3. cbv beta iota in H3.
    repeat match type of H3 with
           | (_ || _)%bool = true => apply orb_prop in H3 as [H3|H3]
           | (_ && _)%bool = true => apply andb_prop in H3 as [H3 _]
           end; apply Z.eqb_eq in H3; auto 10.
Qed.

Lemma ws2_false_r a b :
  (ws1 b = true \/ byte b = 194 \/ byte b = 225 \/ byte b = 226 \/ byte b = 227
   \/ byte b = 239) -> ws2 a b = false.
Proof.
  unfold ws2, ws1. cbv zeta. intros H.
  destruct (byte b =? 160) eqn:E; [|by rewrite andb_false_r].
  apply Z.eqb_eq in E. rewrite E in H. cbn in H. intuition (discriminate || lia).
Qed.

Lemma ws3_false_m a b c :
  (ws1 b = true \/ byte b = 194 \/ byte b = 225 \/ byte b = 226 \/ byte b = 227
   \/ byte b = 239) -> ws3 a b c = false.
Proof.
  unfold ws3, ws1. cbv zeta. cbv beta iota. intros H.
  assert (byte b <> 154 /\ byte b <> 128 /\ byte b <> 129 /\ byte b <> 187) as (?&?&?&?).
  { repeat split; intros E; rewrite E in H; cbn in H; intuition (discriminate || lia). }
  repeat match goal with
         | H : byte b <> ?n |- _ => apply Z.eqb_neq in H; rewrite H; clear H
         end.
  by rewrite ?andb_false_r, ?andb_false_l, ?orb_false_r.
Qed.

Lemma ws3_false_r a b c :
  (ws1 c = true \/ byte c = 194 \/ byte c = 225 \/ byte c = 226 \/ byte c = 227
   \/ byte c = 239) -> ws3 a b c = false.
Proof.
  unfold ws3, ws1. cbv zeta. cbv beta iota. intros H.
  assert (byte c < 128 \/ 192 <= byte c) as Hc.
  { destruct H as [H|H]; [|lia].
    repeat (apply orb_prop in H as [H|H]); apply Z.eqb_eq in H; lia. }
  assert ((byte c =? 128) = false /\ ((128 <=? byte c) && (byte c <=? 138)) = false
          /\ (byte c =? 168) = false /\ (byte c =? 169) = false
          /\ (byte c =? 175) = false /\ (byte c =? 159) = false
          /\ (byte c =? 191) = false) as (->&->&->&->&->&->&->).
  { repeat split; try (apply Z.eqb_neq; lia).
    destruct (128 <=? byte c) eqn:E1; [|done]. destruct (byte c <=? 138) eqn:E2; [|done].
    apply Z.leb_le in E1, E2. lia. }
  by rewrite ?andb_false_r, ?orb_false_r.
Qed.

(** Text that does not open with white space does not come to open with
    it when white space follows it. *)
Lemma starts_blank_app o q :
  o <> [] -> starts_blank false o = false -> blank q ->
  starts_blank false (o ++ q) = false.
Proof.
  intros Ho Hs Hq.
  destruct o as [|a [|b [|c o]]]; [done|..]; cbn [app starts_blank] in *.
  - apply orb_false_elim in Hs as [-> _]. cbn [orb].
    destruct q as [|b [|c q]]; [done|..].
    + by rewrite (ws2_false_r a b (blank_head _ _ Hq)).
    + by rewrite (ws2_false_r a b (blank_head _ _ Hq)),
        (ws3_false_m a b c (blank_head _ _ Hq)).
  - apply orb_false_elim in Hs as [-> Hs]. apply orb_false_elim in Hs as [-> _]. cbn [orb].
    destruct q as [|c q]; [done|].
    by rewrite (ws3_false_r a b c (blank_head _ _ Hq)).
  - done.
Qed.

Lemma trim_front_blank p x : blank p -> trim_front false (p ++ x) = trim_front false x.
Proof.
  induction 1 as [|a t H1 _ IH|a b t H2 _ IH|a b c t H3 _ IH]; [done|..].
  - cbn. by rewrite H1.
  - change ((a :: b :: t) ++ x) with (a :: b :: (t ++ x)). cbn [trim_front].
    assert (ws1 a = false) as ->; [|by rewrite H2].
    apply andb_prop in H2 as [H2 _]. apply Z.eqb_eq in H2. unfold ws1. by rewrite H2.
  - change ((a :: b :: c :: t) ++ x) with (a :: b :: c :: (t ++ x)). cbn [trim_front].
    assert (ws1 a = false /\ ws2 a b = false) as [-> ->]; [|by rewrite H3].
    assert (byte a = 225 \/ byte a = 226 \/ byte a = 227 \/ byte a = 239) as Ha.
    { pose proof (blank_head a [b; c] (blank_3 _ _ _ _ H3 blank_nil)) as Hh.
      destruct Hh as [Hh|[Hh|Hh]]; [| |done].
      - exfalso. unfold ws3 in H3. cbv zeta in H3. cbv beta iota in H3.
        unfold ws1 in Hh. cbv zeta in Hh.
        repeat (apply orb_prop in Hh as [Hh|Hh]); apply Z.eqb_eq in Hh;
          rewrite Hh in H3; cbn in H3; discriminate.
      - exfalso. unfold ws3 in H3. cbv zeta in H3. cbv beta iota in H3.
        rewrite Hh in H3. cbn in H3. discriminate. }
    unfold ws1, ws2. cbv zeta.
    destruct Ha as [E|[E|[E|E]]]; rewrite E; done.
Qed.

Lemma trim_back_blank q x :
  blank q -> trim_front true (List.rev q ++ x) = trim_front true x.
Proof.
  intros Hq. revert x.
  induction Hq as [|a t H1 _ IH|a b t H2 _ IH|a b c t H3 _ IH]; intros x; [done|..].
  - cbn [List.rev]. rewrite <- app_assoc, IH. cbn. by rewrite H1.
  - cbn [List.rev]. rewrite <- !app_assoc, IH. cbn [app trim_front].
    assert (ws1 b = false) as ->; [|by rewrite H2].
    apply andb_prop in H2 as [_ H2]. apply Z.eqb_eq in H2. unfold ws1. by rewrite H2.
  - cbn [List.rev]. rewrite <- !app_assoc, IH. cbn [app trim_front].
    assert (ws1 c = false /\ ws2 b c = false) as [-> ->]; [|by rewrite H3].
    unfold ws3 in H3. cbv zeta in H3. cbv beta iota in H3. unfold ws1, ws2. cbv zeta.
    repeat match type of H3 with
           | (_ || _)%bool = true => apply orb_prop in H3 as [H3|H3]
           | (_ && _)%bool = true => apply andb_prop in H3 as [H3 ?]
           end;
      repeat match goal with
             | H : (_ =? _) = true |- _ => apply Z.eqb_eq in H
             | H : (_ <=? _) = true |- _ => apply Z.leb_le in H
             | H : (_ && _)%bool = true |- _ => apply andb_prop in H as [? ?]
             end;
      (split; [repeat (apply orb_false_intro); apply Z.eqb_neq; lia
              | apply andb_false_intro1; apply Z.eqb_neq; lia]).
Qed.

Lemma trim_front_length rv l : (length (trim_front rv l) <= length l)%nat.
Proof.
  destruct (trim_front_split rv l) as (p & Hp & _).
  rewrite Hp at 2. rewrite length_app. lia.
Qed.

Lemma trim_chars_fix l :
  trim_chars l = l ->
  starts_blank false l = false /\ starts_blank true (List.rev l) = false.
Proof.
  unfold trim_chars. intros H.
  assert (trim_front false l = l) as H1.
  { destruct (trim_front_split false l) as (p & Hp & _).
    pose proof (trim_front_length true (List.rev (trim_front false l))) as Hlen.
    rewrite <- (length_rev (trim_front true _)), H, length_rev in Hlen.
    apply (f_equal (@length ascii)) in Hp as Hpl. rewrite length_app in Hpl.
    destruct p; [done | cbn in Hpl; lia]. }
  rewrite H1 in H. split.
  - rewrite <- H1. apply trim_front_clean.
  - rewrite <- H at 1. rewrite List.rev_involutive. apply trim_front_clean.
Qed.

(** White space around a trimmed text is all that [trim] takes away. *)
Lemma trim_chars_pad p o q :
  blank p -> blank q -> trim_chars o = o -> trim_chars (p ++ o ++ q) = o.
Proof.
  intros Hp Hq Ho. apply trim_chars_fix in Ho as [Hf Hb].
  unfold trim_chars. rewrite trim_front_blank by done.
  destruct (decide (o = [])) as [->|Hne].
  - cbn. rewrite <- (app_nil_r q), trim_front_blank by done. done.
  - rewrite (trim_front_fix false (o ++ q)) by by apply starts_blank_app.
    rewrite List.rev_app_distr, trim_back_blank by done.
    by rewrite (trim_front_fix true), List.rev_involutive.
Qed.

End Trimming.

Section Splitting.

Lemma split_chars_nonempty sep l : split_chars sep l <> [].
Proof.
  destruct l as [|c r]; cbn; [done|].
  case_bool_decide; [done|]. by destruct (split_chars sep r).
Qed.

Lemma split_chars_pieces sep l :
  Forall (Forall (fun c => c <> sep)) (split_chars sep l).
Proof.
  induction l as [|c r IH]; cbn; [by repeat constructor|].
  case_bool_decide; [by constructor|].
  destruct (split_chars sep r) as [|p ps]; [by repeat constructor|].
  inversion IH; subst. by repeat constructor.
Qed.

Lemma split_chars_app sep x r :
  Forall (fun c => c <> sep) x ->
  split_chars sep (x ++ sep :: r) = x :: split_chars sep r.
Proof.
  induction 1 as [|c x Hc _ IH]; cbn.
  - by rewrite bool_decide_eq_true_2.
  - by rewrite bool_decide_eq_false_2, IH.
Qed.

Lemma split_chars_whole sep x :
  Forall (fun c => c <> sep) x -> split_chars sep x = [x].
Proof.
  induction 1 as [|c x Hc _ IH]; cbn; [done|].
  by rewrite bool_decide_eq_false_2, IH.
Qed.

Lemma split_join xs :
  xs <> [] -> Forall comma_free xs ->
  split_chars "," (chars (join "," xs)) = List.map chars xs.
Proof.
  intros Hne H. induction H as [|x r Hx Hr IH]; [done|].
  destruct r as [|y r].
  - cbn. by apply split_chars_whole.
  - change (join "," (x :: y :: r)) with (x +:+ "," +:+ join "," (y :: r)).
    rewrite !chars_app. change (chars ",") with [","%char]. cbn [app].
    rewrite split_chars_app by done. rewrite IH by done. done.
Qed.

Lemma join_cons sep x r : exists t, join sep (x :: r) = x +:+ t.
Proof.
  destruct r as [|y r]; [|by eexists].
  exists "". apply chars_inj. by rewrite chars_app, app_nil_r.
Qed.

End Splitting.

(** Property X17.  The prompt sent to the model opens with the assistant
    preamble, continues with the context lines and the [User:] line; of
    that text only white space at its end is dropped. *)
Theorem prompt_keeps_context (b : reqbody) (p : string) :
  build_prompt b = Ok p ->
  exists lines m q,
    contextLines (field "crop" (JStr "") b) (field "coords" JNull b)
                 (field "weather" JNull b) = Ok (preamble :: lines)
    /\ ToString (field "message" (JStr "") b) = Ok m
    /\ chars (join " | " (preamble :: lines) +:+ newline +:+ "User: " +:+ m)
       = chars p ++ q
    /\ blank q.
Proof.
  unfold build_prompt, contextLines, prompt_of. cbv zeta.
  destruct (crop_line _) as [c|]; [|done].
  destruct (coords_line _) as [k|]; [|done].
  change (filter_Boolean [preamble; c; k; weather_line (field "weather" JNull b)])
    with (preamble :: filter_Boolean [c; k; weather_line (field "weather" JNull b)]).
  set (lines := filter_Boolean _).
  destruct (ToString (field "message" (JStr "") b)) as [m|]; [|done].
  set (text := join " | " (preamble :: lines) +:+ newline +:+ "User: " +:+ m).
  intros Hp. assert (p = trim text) as -> by congruence. clear Hp.
  destruct (join_cons " | " preamble lines) as (t & Ht).
  assert (exists r, chars text = "Y"%char :: "o"%char :: "u"%char :: r) as (r & Hr).
  { unfold text. rewrite Ht, !chars_app. by eexists. }
  unfold trim, trim_chars. rewrite chars_str, (trim_front_fix false (chars text)).
  2:{ by rewrite Hr. }
  destruct (trim_front_split true (List.rev (chars text))) as (q & Hq & Hb).
  exists lines, m, (List.rev q). split; [done|]. split; [done|]. split; [|done].
  by rewrite <- List.rev_app_distr, <- Hq, List.rev_involutive.
Qed.

Lemma prompt_keeps_context_witness :
  exists lines m q,
    contextLines (field "crop" (JStr "") wordy) (field "coords" JNull wordy)
                 (field "weather" JNull wordy) = Ok (preamble :: lines)
    /\ ToString (field "message" (JStr "") wordy) = Ok m
    /\ chars (join " | " (preamble :: lines) +:+ newline +:+ "User: " +:+ m)
       = chars ("You are a helpful farming assistant." +:+ newline +:+ "User: when to sow?")
         ++ q
    /\ blank q.
Proof.
  apply (prompt_keeps_context wordy). vm_compute; reflexivity.
Defined.

(** Property X18.  The allowed origins are never an empty list; each of
    them is free of commas and unchanged by [trim] (no white space at
    either end); and with [CORS_ORIGIN] unset or empty the list is the
    local development origin alone. *)
Theorem origins_trimmed (v : option string) :
  FRONTEND_ORIGIN v <> []
  /\ (forall o, In o (FRONTEND_ORIGIN v) -> trim o = o /\ comma_free o)
  /\ (nonempty v = None -> FRONTEND_ORIGIN v = ["http://localhost:5173"]).
Proof.
  unfold FRONTEND_ORIGIN, split. split; [|split].
  - intros H. apply map_eq_nil in H. apply map_eq_nil in H.
    by apply split_chars_nonempty in H.
  - intros o Ho. apply in_map_iff in Ho as (x & <- & Hx).
    apply in_map_iff in Hx as (l & <- & Hl). split; [apply trim_idem|].
    pose proof (split_chars_pieces "," (chars (default "http://localhost:5173" (nonempty v))))
      as Hall.
    rewrite List.Forall_forall in Hall.
    specialize (Hall l Hl).
    unfold comma_free, trim. rewrite !chars_str.
    destruct (trim_chars_split l) as (p & q & Hpq & _).
    rewrite Hpq in Hall. apply Forall_app in Hall as [_ Hall].
    by apply Forall_app in Hall as [Hall _].
  - intros ->. by vm_compute.
Qed.

(** Property X19.  Configuration round trip: take origins that [trim]
    leaves unchanged, write each with any white space around it and no
    comma, and join the pieces with commas; if that text is not empty, it
    is read back as exactly those origins. *)
Theorem origins_round_trip (raw os : list string) :
  Forall2 padded raw os ->
  Forall comma_free raw ->
  Forall (fun o => trim o = o) os ->
  join "," raw <> "" ->
  FRONTEND_ORIGIN (Some (join "," raw)) = os.
Proof.
  intros Hpad Hfree Htrim Hne.
  assert (raw <> []) as Hraw by (by intros ->).
  unfold FRONTEND_ORIGIN, split. cbn [nonempty].
  rewrite bool_decide_eq_false_2 by done. cbn [default].
  unfold id. rewrite split_join by done. clear Hne Hraw.
  induction Hpad as [|r o raw os (p & q & Hp & Hq & Hr) _ IH]; [done|].
  inversion Hfree; subst. inversion Htrim as [|? ? Ho Hos]; subst.
  cbn [List.map]. rewrite IH by done. f_equal.
  rewrite str_chars. unfold trim. rewrite Hr.
  rewrite trim_chars_pad; [apply str_chars|done..|].
  unfold trim in Ho. apply (f_equal chars) in Ho. by rewrite chars_str in Ho.
Qed.

Lemma origins_round_trip_witness :
  FRONTEND_ORIGIN (Some "https://farm.example , http://localhost:5173")
  = ["https://farm.example"; "http://localhost:5173"].
Proof.
  apply (origins_round_trip ["https://farm.example "; " http://localhost:5173"]).
  - constructor; [|constructor; [|constructor]].
    + exists [], [" "%char]. split; [constructor|]. split; [|done].
      by apply blank_1; [|constructor].
    + exists [" "%char], []. split; [by apply blank_1; [|constructor]|].
      split; [constructor|done].
  - repeat constructor; by vm_compute.
  - repeat constructor; by vm_compute.
  - by vm_compute.
Defined.
